(** * Feature encoding of the recommendation workers

    A shallow embedding of the two model-training workers (the stub worker and
    the real-training worker).  Both files define [WEIGHTS], [normalize],
    [makeContext], [oneHotWeighted], [encodeProduct] and [encodeUser] with the
    same text; they differ in [createTrainingData], which the second one
    guards with a filter on the users.

    Numbers.  A JavaScript number is embedded as [number]: a rational or one
    of the three special values Infinity, -Infinity and NaN, with the
    arithmetic of IEEE 754 on the special values and exact arithmetic on the
    rationals (one zero, no rounding, and no overflow to Infinity).  A
    statement that is about the value of a result only holds of the code
    where the code computes it exactly, or where rounding cannot break it; it
    then carries the hypothesis that says so: a difference that does not
    exceed [MAX_VALUE], ages in whole years, a weight that is a float32
    value.  Where a statement turns on rounding itself (the sum of the four
    weights) the constants are taken as binary64 values, in [Binary64].

    Division.  JavaScript yields Infinity or NaN for a zero divisor.  The
    embedding stops such a run with [DivisionByZero] instead, so that "no
    division by zero occurs" is a statement about the runs of the code.

    Objects.  The objects the code uses as maps from names to values are
    plain objects.  [ageSums], [ageCounts] and the [productAvgAgeNorm] of a
    context are read under names that the data chooses, so the embedding
    follows the read to [Object.prototype] when the object has no such
    property of its own ([read]), and the write to the setter of [__proto__]
    ([assign]).  The two index maps are read the same way, but there a value
    found on the prototype is refused by the library like no value at all,
    and an absent key of the finite map stands for both.

    Calls.  [Math.min(...xs)] passes every element as an argument of one
    call, and an engine refuses a call with too many arguments; how many is
    not fixed by the language and not part of the embedding, where the call
    returns for every list.  The statements about [makeContext] are therefore
    about the context that it has returned, about what it does on the small
    catalog, or about the errors it does not raise.

    Tensors.  The tensor library is not part of the repository.  Its
    operations are embedded by the value they denote on tensors of rank one
    and two, the only ranks the workers build, with the checks the library
    makes on its arguments: an operation that has no value on its arguments
    (an undefined index, a one-hot depth below two, no row or rows of
    different length, a reshape to another size) raises [TfError].  The
    entries of a tensor are float32 values in the library and numbers of the
    embedding here: the embedding of an operation gives the exact result,
    which is the library's where that result is a float32 value.  The mean
    that [encodeUser] takes is named by the operation that computes it; the
    statements say what the operation is applied to, and which value it has
    where the library computes it without rounding (the mean of one
    vector). *)

From Stdlib Require Import QArith Qcanon Qabs Floats.
From stdpp Require Import base numbers list strings gmap.

Local Open Scope Qc_scope.

(** ** Exceptions and the result of a run *)

Inductive exn : Set :=
  | TypeError        (* a property read on undefined *)
  | TfError          (* the tensor library rejects its arguments *)
  | DivisionByZero.  (* a division whose divisor is zero *)

Inductive outcome (A : Type) : Type :=
  | Ok (a : A)
  | Throw (e : exn).
Arguments Ok {A} a.
Arguments Throw {A} e.

Global Instance outcome_ret : MRet outcome := λ A a, Ok a.
Global Instance outcome_bind : MBind outcome := λ A B f m,
  match m with
  | Ok a => f a
  | Throw e => Throw e
  end.
Global Instance outcome_fmap : FMap outcome := λ A B f m,
  match m with
  | Ok a => Ok (f a)
  | Throw e => Throw e
  end.

Global Instance exn_eq_dec : EqDecision exn.
Proof. solve_decision. Defined.

(** [xs.forEach(f)] and [xs.map(f)] where [f] may throw: the elements are
    visited from the left and the first exception ends the loop. *)
Fixpoint forEach {S A} (f : S → A → outcome S) (xs : list A) (s : S) : outcome S :=
  match xs with
  | [] => Ok s
  | x :: rest => s' ← f s x; forEach f rest s'
  end.

Fixpoint mapT {A B} (f : A → outcome B) (xs : list A) : outcome (list B) :=
  match xs with
  | [] => Ok []
  | x :: rest => y ← f x; ys ← mapT f rest; Ok (y :: ys)
  end.

(** ** Numbers *)

Inductive number : Set :=
  | Fin (q : Qc)
  | PosInf
  | NegInf
  | NaN.

Global Instance number_eq_dec : EqDecision number.
Proof. solve_decision. Defined.

Declare Scope number_scope.
Delimit Scope number_scope with num.
Bind Scope number_scope with number.

Definition num_of_nat (n : nat) : number := Fin (Qc_of_Z (Z.of_nat n)).
Definition num_of_bool (b : bool) : number := if b then Fin 1 else Fin 0.

Definition neg (a : number) : number :=
  match a with
  | Fin x => Fin (- x)
  | PosInf => NegInf
  | NegInf => PosInf
  | NaN => NaN
  end.

Definition add (a b : number) : number :=
  match a, b with
  | NaN, _ | _, NaN => NaN
  | Fin x, Fin y => Fin (x + y)
  | PosInf, NegInf | NegInf, PosInf => NaN
  | PosInf, _ | _, PosInf => PosInf
  | NegInf, _ | _, NegInf => NegInf
  end.

Definition sub (a b : number) : number := add a (neg b).

(** The sign of a number that is neither zero nor NaN, as the infinity of
    that sign. *)
Definition inf_of_sign (positive : bool) : number :=
  if positive then PosInf else NegInf.

Definition is_positive (a : number) : bool :=
  match a with
  | Fin x => bool_decide (0 < x)
  | PosInf => true
  | NegInf | NaN => false
  end.

Definition is_zero (a : number) : bool :=
  match a with
  | Fin x => bool_decide (x = 0)
  | _ => false
  end.

Definition mul (a b : number) : number :=
  match a, b with
  | NaN, _ | _, NaN => NaN
  | Fin x, Fin y => Fin (x * y)
  | _, _ =>
      if is_zero a || is_zero b then NaN
      else inf_of_sign (eqb (is_positive a) (is_positive b))
  end.

(** [a / b].  A zero divisor ends the run (see the header). *)
Definition div (a b : number) : outcome number :=
  if is_zero b then Throw DivisionByZero
  else Ok match a, b with
          | NaN, _ | _, NaN => NaN
          | Fin x, Fin y => Fin (x / y)
          | Fin _, _ => Fin 0
          | _, Fin _ => inf_of_sign (eqb (is_positive a) (is_positive b))
          | _, _ => NaN
          end.

Infix "+" := add : number_scope.
Infix "-" := sub : number_scope.
Infix "*" := mul : number_scope.

(** Truthiness of a number: every number but 0 and NaN. *)
Definition truthy (a : number) : bool :=
  match a with
  | Fin x => bool_decide (x ≠ 0)
  | PosInf | NegInf => true
  | NaN => false
  end.

(** [a || b] on numbers. *)
Definition or_else (a b : number) : number := if truthy a then a else b.

(** [a <= b], false as soon as one side is NaN. *)
Definition leb (a b : number) : bool :=
  match a, b with
  | NaN, _ | _, NaN => false
  | NegInf, _ | _, PosInf => true
  | Fin x, Fin y => bool_decide (x ≤ y)
  | _, _ => false
  end.

Definition is_nan (a : number) : bool :=
  match a with NaN => true | _ => false end.

(** [Math.min(...xs)] and [Math.max(...xs)]: Infinity and -Infinity on no
    argument, NaN as soon as one argument is NaN (for a list that the engine
    accepts as the arguments of one call, see the header). *)
Definition min2 (a b : number) : number :=
  if is_nan a || is_nan b then NaN else if leb a b then a else b.
Definition max2 (a b : number) : number :=
  if is_nan a || is_nan b then NaN else if leb a b then b else a.
Definition Math_min (xs : list number) : number := foldl min2 PosInf xs.
Definition Math_max (xs : list number) : number := foldl max2 NegInf xs.

(** [Number.MAX_VALUE], the largest number that is not Infinity:
    (2^53 - 1) * 2^971.  A sum or difference of numbers that is no larger is
    not Infinity either. *)
Definition MAX_VALUE : Qc := Q2Qc (inject_Z ((2 ^ 53 - 1) * 2 ^ 971)).

(** ** The weights and the normalisation *)

Module WEIGHTS.
Definition category : number := Fin (Q2Qc (4 # 10)).
Definition color : number := Fin (Q2Qc (3 # 10)).
Definition price : number := Fin (Q2Qc (2 # 10)).
Definition age : number := Fin (Q2Qc (1 # 10)).
End WEIGHTS.

(** [(value - min) / (max - min || 1)] *)
Definition normalize (value min max : number) : outcome number :=
  div (value - min)%num (or_else (max - min)%num (Fin 1)).

(** ** Records *)

Record Product : Set := {
  name : string;
  category : string;
  color : string;
  price : number;
}.

Record User : Set := {
  age : number;
  purchases : list Product;
}.

Global Instance Product_eq_dec : EqDecision Product.
Proof. solve_decision. Defined.
Global Instance User_eq_dec : EqDecision User.
Proof. solve_decision. Defined.

Record Context : Type := {
  products : list Product;
  users : list User;
  colorsIndex : gmap string nat;
  categoriesIndex : gmap string nat;
  minAge : number;
  maxAge : number;
  minPrice : number;
  maxPrice : number;
  productAvgAgeNorm : gmap string number;
  numCategories : nat;
  numColors : nat;
  dimensions : nat;
}.

(** [[...new Set(xs)]]: the distinct elements, in the order of their first
    occurrence. *)
Definition Set_spread (xs : list string) : list string :=
  foldl (λ seen x, if bool_decide (x ∈ seen) then seen else seen ++ [x]) [] xs.

(** [Object.fromEntries(entries)]: a later entry overwrites an earlier one
    of the same key.  Every key becomes a property of the object itself. *)
Definition fromEntries {V} (entries : list (string * V)) : gmap string V :=
  foldl (λ obj entry, <[entry.1 := entry.2]> obj) ∅ entries.

(** ** Plain objects *)

(** The names that an object written [{}] or built by [Object.fromEntries]
    inherits from [Object.prototype]. *)
Definition inherited (key : string) : bool :=
  bool_decide (key ∈ ["constructor"; "hasOwnProperty"; "isPrototypeOf";
                      "propertyIsEnumerable"; "toLocaleString"; "toString";
                      "valueOf"; "__defineGetter__"; "__defineSetter__";
                      "__lookupGetter__"; "__lookupSetter__"; "__proto__"]).

(** What the read of a property of such an object gives: nothing, a number,
    or a value that is not a number.  The last is a function or an object
    found on the prototype, or the string that [+] builds from one of them;
    each of these is truthy, and NaN once it is taken as a number. *)
Inductive property : Set :=
  | Undefined
  | Num (n : number)
  | Exotic.

(** [obj[key]]: the property of the object itself, or else the inherited
    one. *)
Definition read (obj : gmap string property) (key : string) : property :=
  match obj !! key with
  | Some value => value
  | None => if inherited key then Exotic else Undefined
  end.

(** [obj[key] = value], the value a number or a string.  The write makes a
    property of the object itself, but for [__proto__]: there it reaches the
    setter of the prototype, which leaves the object as it is. *)
Definition assign (obj : gmap string property) (key : string) (value : property)
    : gmap string property :=
  if bool_decide (key = "__proto__") then obj else <[key := value]> obj.

Definition truthy_property (value : property) : bool :=
  match value with
  | Undefined => false
  | Num n => truthy n
  | Exotic => true
  end.

(** [value || 0] *)
Definition or_zero (value : property) : property :=
  if truthy_property value then value else Num (Fin 0).

(** [value ?? b]: only undefined gives way. *)
Definition nullish (value : property) (b : number) : property :=
  match value with
  | Undefined => Num b
  | _ => value
  end.

(** [value + n]: the sum of two numbers, or the string that starts with the
    text of [value]. *)
Definition plus (value : property) (n : number) : property :=
  match value with
  | Num a => Num (a + n)
  | Undefined => Num NaN
  | Exotic => Exotic
  end.

(** The number an arithmetic operator takes a value as. *)
Definition to_number (value : property) : number :=
  match value with
  | Num n => n
  | Undefined | Exotic => NaN
  end.

(** The two objects [ageSums] and [ageCounts] after the nested [forEach]. *)
Definition ageTotals (users : list User)
    : gmap string property * gmap string property :=
  foldl (λ totals user,
    foldl (λ '(ageSums, ageCounts) purchase,
      (assign ageSums (name purchase)
         (plus (or_zero (read ageSums (name purchase))) (age user)),
       assign ageCounts (name purchase)
         (plus (or_zero (read ageCounts (name purchase))) (Fin 1))))
      totals (purchases user))
    (∅, ∅) users.

(** [ageCounts[name] ? ageSums[name] / ageCounts[name] : avgAge] *)
Definition purchaserAvgAge (ageSums ageCounts : gmap string property)
    (avgAge : number) (product : Product) : outcome number :=
  if truthy_property (read ageCounts (name product))
  then div (to_number (read ageSums (name product)))
           (to_number (read ageCounts (name product)))
  else Ok avgAge.

Definition makeContext (products : list Product) (users : list User) : outcome Context :=
  let ages := map age users in
  let prices := map price products in
  let minAge := Math_min ages in
  let maxAge := Math_max ages in
  let minPrice := Math_min prices in
  let maxPrice := Math_max prices in
  let colors := Set_spread (map color products) in
  let categories := Set_spread (map category products) in
  let colorsIndex := fromEntries (imap (λ index color, (color, index)) colors) in
  let categoriesIndex := fromEntries (imap (λ index category, (category, index)) categories) in
  avgAge ← div (minAge + maxAge)%num (Fin 2);
  let '(ageSums, ageCounts) := ageTotals users in
  entries ← mapT (λ product,
      avg ← purchaserAvgAge ageSums ageCounts avgAge product;
      norm ← normalize avg minAge maxAge;
      Ok (name product, norm)) products;
  let productAvgAgeNorm := fromEntries entries in
  Ok {| products := products;
        users := users;
        colorsIndex := colorsIndex;
        categoriesIndex := categoriesIndex;
        minAge := minAge;
        maxAge := maxAge;
        minPrice := minPrice;
        maxPrice := maxPrice;
        productAvgAgeNorm := productAvgAgeNorm;
        numCategories := length categories;
        numColors := length colors;
        dimensions := 2 + length categories + length colors |}.

(** ** Tensors *)

Abbreviation Tensor1D := (list number).
Abbreviation Tensor2D := (list (list number)).

Module tf.

Definition tensor1d (values : list number) : Tensor1D := values.

(** [tf.tensor2d(rows)] without a shape: there must be a row, and the rows
    must have one length. *)
Definition tensor2d (rows : list (list number)) : outcome Tensor2D :=
  match rows with
  | [] => Throw TfError
  | row :: _ =>
      if forallb (λ row', length row' =? length row)%nat rows
      then Ok rows else Throw TfError
  end.

(** [tf.oneHot(index, depth)]: 1 at [index], 0 elsewhere.  The depth must be
    2 at least, and the index a number: an index that is undefined, or a
    function read through the prototype of the index map, is refused. *)
Definition oneHot (index : option nat) (depth : nat) : outcome Tensor1D :=
  if (depth <? 2)%nat then Throw TfError
  else match index with
       | Some i => Ok (map (λ j, num_of_bool (j =? i)%nat) (seq 0 depth))
       | None => Throw TfError
       end.

(** [t.cast("float32")]: the values are kept (see the header). *)
Definition cast_float32 (t : Tensor1D) : Tensor1D := t.

(** [t.mul(w)] *)
Definition mul (t : Tensor1D) (w : number) : Tensor1D := map (λ x, (x * w)%num) t.

(** [tf.concat(ts, 0)] on tensors of rank one. *)
Definition concat (ts : list Tensor1D) : Tensor1D := mjoin ts.

(** [tf.stack(ts)]: at least one tensor, and all of one shape. *)
Definition stack (ts : list Tensor1D) : outcome Tensor2D :=
  match ts with
  | [] => Throw TfError
  | t :: _ =>
      if forallb (λ t', length t' =? length t)%nat ts then Ok ts else Throw TfError
  end.

(** The sum of the rows, column by column. *)
Fixpoint sum0 (rows : list (list number)) : list number :=
  match rows with
  | [] => []
  | [row] => row
  | row :: rest => zip_with add row (sum0 rest)
  end.

(** [t.mean(0)]: the mean of the rows, column by column, as an exact
    quotient (see the header). *)
Definition mean0 (t : Tensor2D) : outcome Tensor1D :=
  mapT (λ s, div s (num_of_nat (length t))) (sum0 t).

(** [t.reshape([1, n])] *)
Definition reshape_row (t : Tensor1D) (n : nat) : outcome Tensor2D :=
  if (length t =? n)%nat then Ok [t] else Throw TfError.

(** [t.dataSync()]: the values in row-major order. *)
Definition dataSync1 (t : Tensor1D) : list number := t.
Definition dataSync2 (t : Tensor2D) : list number := mjoin t.

End tf.

(** ** The encoders *)

(** [tf.oneHot(index, length).cast("float32").mul(weight)] *)
Definition oneHotWeighted (index : option nat) (length : nat) (weight : number)
    : outcome Tensor1D :=
  t ← tf.oneHot index length;
  Ok (tf.mul (tf.cast_float32 t) weight).

Definition encodeProduct (product : Product) (context : Context) : outcome Tensor1D :=
  norm ← normalize (price product) (minPrice context) (maxPrice context);
  let price := tf.mul (tf.tensor1d [norm]) WEIGHTS.price in
  let age := tf.tensor1d
    [(to_number
        (nullish (read (Num <$> productAvgAgeNorm context) (name product))
           (Fin (Q2Qc (1 # 2))))
      * WEIGHTS.age)%num] in
  category ← oneHotWeighted (categoriesIndex context !! category product)
               (numCategories context) WEIGHTS.category;
  color ← oneHotWeighted (colorsIndex context !! color product)
            (numColors context) WEIGHTS.color;
  Ok (tf.concat [price; age; category; color]).

(** The result is [None] where the function falls off its end and returns
    undefined. *)
Definition encodeUser (user : User) (context : Context) : outcome (option Tensor2D) :=
  if bool_decide (length (purchases user) ≠ 0%nat) then
    vectors ← mapT (λ purchase, encodeProduct purchase context) (purchases user);
    stacked ← tf.stack vectors;
    mean ← tf.mean0 stacked;
    reshaped ← tf.reshape_row mean (dimensions context);
    Ok (Some reshaped)
  else Ok None.

(** ** The training set *)

Record TrainingData : Type := {
  xs : Tensor2D;
  ys : Tensor2D;
  inputDimension : nat;
}.

(** [encodeUser(user, context).dataSync()]: a method call on undefined is a
    TypeError. *)
Definition dataSync_of (t : option Tensor2D) : outcome (list number) :=
  match t with
  | Some t => Ok (tf.dataSync2 t)
  | None => Throw TypeError
  end.

(** [user.purchases.some((purchase) => purchase.name === product.name ? 1 : 0)] *)
Definition purchased (user : User) (product : Product) : bool :=
  existsb (λ purchase,
    truthy (if String.eqb (name purchase) (name product) then Fin 1 else Fin 0))
    (purchases user).

(** The body of the outer [forEach]: the rows of one user are pushed on
    [inputs] and [labels]. *)
Definition pushUser (context : Context)
    (acc : list (list number) * list bool) (user : User)
    : outcome (list (list number) * list bool) :=
  encoded ← encodeUser user context;
  userVector ← dataSync_of encoded;
  forEach (λ '(inputs, labels) product,
      t ← encodeProduct product context;
      let productVector := tf.dataSync1 t in
      let label := purchased user product in
      Ok (inputs ++ [userVector ++ productVector], labels ++ [label]))
    (products context) acc.

(** [tf.tensor2d(labels, [labels.length, 1])]: one label a row, [true] stored
    as 1 and [false] as 0. *)
Definition labelColumn (labels : list bool) : Tensor2D :=
  map (λ label, [num_of_bool label]) labels.

(** The object [createTrainingData] returns, from the two arrays. *)
Definition toTrainingData (context : Context)
    (acc : list (list number) * list bool) : outcome TrainingData :=
  let '(inputs, labels) := acc in
  xs ← tf.tensor2d inputs;
  Ok {| xs := xs;
        ys := labelColumn labels;
        inputDimension := dimensions context * 2 |}.

(** The stub worker: every user is encoded, and a user without a purchase
    ends the loop with a TypeError. *)
Module Stub.

Definition createTrainingData (context : Context) : outcome TrainingData :=
  acc ← forEach (pushUser context) (users context) ([], []);
  toTrainingData context acc.

End Stub.

(** The real-training worker: users without a purchase are left out. *)
Module Train.

Definition createTrainingData (context : Context) : outcome TrainingData :=
  acc ← forEach (pushUser context)
          (filter (λ user, length (purchases user) ≠ 0%nat) (users context))
          ([], []);
  toTrainingData context acc.

End Train.

(** ** Vocabulary of the statements *)

(** The category and the color of [product] are keys of the index maps. *)
Definition encodable (context : Context) (product : Product) : Prop :=
  is_Some (categoriesIndex context !! category product) ∧
  is_Some (colorsIndex context !! color product).

(** The values of the vector a successful call returns (no value otherwise). *)
Definition productVector (context : Context) (product : Product) : list number :=
  match encodeProduct product context with
  | Ok t => tf.dataSync1 t
  | Throw _ => []
  end.
Definition userVector (context : Context) (user : User) : list number :=
  match encodeUser user context with
  | Ok (Some t) => tf.dataSync2 t
  | _ => []
  end.

(** The users that pass [user.purchases.length]. *)
Definition buyers (users : list User) : list User :=
  filter (λ user, length (purchases user) ≠ 0%nat) users.

(** One row and one label for each (user, product) pair, user by user. *)
Definition pairRows (context : Context) (us : list User) : list (list number) :=
  user ← us; product ← products context;
  [userVector context user ++ productVector context product].
Definition pairLabels (context : Context) (us : list User) : list bool :=
  user ← us; product ← products context; [purchased user product].


Definition total (t : list number) : number := foldr add (Fin 0) t.

(** ** The weights as binary64 values *)

Module Binary64.
#[local] Set Warnings "-inexact-float".
Local Open Scope float_scope.

(** The literals of [WEIGHTS], each read as the nearest binary64 value. *)
Definition category : float := 0.4.
Definition color : float := 0.3.
Definition price : float := 0.2.
Definition age : float := 0.1.

(** [WEIGHTS.category + WEIGHTS.color + WEIGHTS.price + WEIGHTS.age], added
    from the left as JavaScript does, and the same sum taken from the other
    end. *)
Definition sum_of_weights : float := category + color + price + age.
Definition sum_of_weights_reversed : float := age + price + color + category.

(** The rational a finite binary64 value stands for. *)
Definition to_Q (x : float) : option Q :=
  match Prim2SF x with
  | S754_zero _ => Some 0%Q
  | S754_finite s m e =>
      let v := (inject_Z (Z.pos m) * Qpower 2 e)%Q in
      Some (if s then (- v)%Q else v)
  | _ => None
  end.

(** [x] is finite and no further than [2^-e] from the rational [r]. *)
Definition within (e : Z) (r : Q) (x : float) : Prop :=
  match to_Q x with
  | Some v => (Qabs (v - r) <= Qpower 2 (- e))%Q
  | None => False
  end.
End Binary64.

(** ** A small catalog *)

Definition money (cents : Z) : number := Fin (Q2Qc (cents # 100)).
Definition years (n : Z) : number := Fin (Qc_of_Z n).

Definition cap : Product :=
  {| name := "Bone Estiloso"; category := "acessorios"; color := "preto";
     price := money 3999 |}.
Definition bag : Product :=
  {| name := "Mochila Executiva"; category := "acessorios"; color := "cinza";
     price := money 15999 |}.
Definition phones : Product :=
  {| name := "Fone Bluetooth"; category := "eletronicos"; color := "preto";
     price := money 19999 |}.
Definition catalog : list Product := [cap; bag; phones].

Definition rafael : User := {| age := years 27; purchases := [cap; bag] |}.
Definition ana : User := {| age := years 35; purchases := [phones] |}.
Definition newcomer : User := {| age := years 40; purchases := [] |}.

(** The context of the catalog and the given users. *)
Definition contextOf (us : list User) : Context :=
  match makeContext catalog us with
  | Ok context => context
  | Throw _ =>
      {| products := []; users := []; colorsIndex := ∅; categoriesIndex := ∅;
         minAge := NaN; maxAge := NaN; minPrice := NaN; maxPrice := NaN;
         productAvgAgeNorm := ∅; numCategories := 0; numColors := 0;
         dimensions := 0 |}
  end.

(** ** Well-formed contexts *)

(** The dimension the context records is the length of an encoded product. *)
Definition consistent (context : Context) : Prop :=
  dimensions context = (2 + numCategories context + numColors context)%nat.

(** Every product of the catalog and every purchase of every user has its
    category and color in the index maps. *)
Definition allEncodable (context : Context) : Prop :=
  Forall (encodable context) (products context) ∧
  Forall (λ user, Forall (encodable context) (purchases user)) (users context).

(** The context with another list of users. *)
Definition withUsers (context : Context) (us : list User) : Context :=
  {| products := products context;
     users := us;
     colorsIndex := colorsIndex context;
     categoriesIndex := categoriesIndex context;
     minAge := minAge context;
     maxAge := maxAge context;
     minPrice := minPrice context;
     maxPrice := maxPrice context;
     productAvgAgeNorm := productAvgAgeNorm context;
     numCategories := numCategories context;
     numColors := numColors context;
     dimensions := dimensions context |}.

(** The catalog with two users who have bought something, and the same with
    a user who has bought nothing between them. *)
Definition shop : Context := contextOf [rafael; ana].
Definition crowd : Context := contextOf [rafael; newcomer; ana].

(** A catalog of one category, and its context with one user. *)
Definition boutique : Context :=
  match makeContext [cap; bag] [rafael] with
  | Ok context => context
  | Throw _ => contextOf []
  end.

(** A finite number as a reduced fraction, to read the results of a run. *)
Definition fraction (a : number) : option Q :=
  match a with
  | Fin x => Some (this x)
  | _ => None
  end.

(** The context of an empty catalog and no user, field by field. *)
Definition emptyContext : Context :=
  {| products := []; users := [];
     colorsIndex := ∅; categoriesIndex := ∅;
     minAge := PosInf; maxAge := NegInf;
     minPrice := PosInf; maxPrice := NegInf;
     productAvgAgeNorm := ∅;
     numCategories := 0; numColors := 0; dimensions := 2 |}.

(** ** More of the small catalog *)

(** A product of a category the catalog does not have, and a user who has
    bought it. *)
Definition scarf : Product :=
  {| name := "Cachecol"; category := "inverno"; color := "preto";
     price := money 5999 |}.
Definition clara : User := {| age := years 31; purchases := [cap; scarf] |}.

(** The training set of the shop. *)
Definition shopTraining : TrainingData :=
  match Stub.createTrainingData shop with
  | Ok td => td
  | Throw _ => {| xs := []; ys := []; inputDimension := 0 |}
  end.


(** The catalog with a user who has bought a product of an unknown
    category. *)
Definition market : Context := contextOf [rafael; clara].


(** ** The stub worker's training run *)

(** The messages the worker posts, by the name of their type in
    [workerEvents] (the constants themselves are not part of the two
    files). *)
Inductive message : Set :=
  | progressUpdate (progress : nat)
  | trainingLog (epoch loss accuracy : nat)
  | trainingComplete.

(** An element of [context.productVectors]. *)
Module ProductVector.
Record t : Set := {
  name : string;
  meta : Product;
  vector : list number;
}.
End ProductVector.

(** The state of the worker: the module variable [_globalCtx] (the context
    with its [productVectors], [None] before the first run), the messages
    posted so far, and the callbacks handed to [setTimeout] with their delay,
    each as the messages it will post. *)
Record Worker : Type := {
  _globalCtx : option (Context * list ProductVector.t);
  posted : list message;
  timers : list (nat * list message);
}.

(** A step of the worker: it changes the state and returns or throws. *)
Definition run (A : Type) : Type := Worker → Worker * outcome A.

Global Instance run_ret : MRet run := λ A a w, (w, Ok a).
Global Instance run_bind : MBind run := λ A B f m w,
  match m w with
  | (w', Ok a) => f a w'
  | (w', Throw e) => (w', Throw e)
  end.

Definition lift {A} (result : outcome A) : run A := λ w, (w, result).

Definition postMessage (m : message) : run unit := λ w,
  ({| _globalCtx := _globalCtx w; posted := posted w ++ [m]; timers := timers w |},
   Ok tt).

Definition setTimeout (callback : list message) (delay : nat) : run unit := λ w,
  ({| _globalCtx := _globalCtx w; posted := posted w;
      timers := timers w ++ [(delay, callback)] |},
   Ok tt).

Definition assignGlobalCtx (value : Context * list ProductVector.t) : run unit :=
  λ w, ({| _globalCtx := Some value; posted := posted w; timers := timers w |},
        Ok tt).

(** [products.map((product) => ({ name, meta, vector }))] *)
Definition productVectorsOf (context : Context) (products : list Product)
    : outcome (list ProductVector.t) :=
  mapT (λ product,
      t ← encodeProduct product context;
      Ok {| ProductVector.name := name product;
            ProductVector.meta := product;
            ProductVector.vector := tf.dataSync1 t |}) products.

Module StubWorker.

(** [trainModel({ users })], with the catalog that [fetch] delivers as an
    argument.  A throw is the rejection of the promise the function
    returns. *)
Definition trainModel (users : list User) (fetched : list Product) : run unit :=
  _ ← postMessage (progressUpdate 50);
  context ← lift (makeContext fetched users);
  productVectors ← lift (productVectorsOf context fetched);
  _ ← assignGlobalCtx (context, productVectors);
  trainingData ← lift (Stub.createTrainingData context);
  _ ← postMessage (trainingLog 1 1 1);
  setTimeout [progressUpdate 100; trainingComplete] 1000.

End StubWorker.

(** A worker that has done nothing yet. *)
Definition freshWorker : Worker :=
  {| _globalCtx := None; posted := []; timers := [] |}.

(** The category and the color of the product are the category of a product
    of the catalog and the color of one. *)
Definition stocked (products' : list Product) (product : Product) : Prop :=
  category product ∈ map category products' ∧
  color product ∈ map color products'.

(** ** Vocabulary of the further statements *)

(** A number other than Infinity, -Infinity and NaN. *)
Definition is_finite (a : number) : bool :=
  match a with Fin _ => true | _ => false end.

(** An age in whole years, up to 2^20: sums of up to 2^32 such ages are
    integers below 2^53, which the arithmetic of the code adds without
    rounding. *)
Definition whole (a : number) : Prop :=
  ∃ n : Z, (0 ≤ n ≤ 2 ^ 20)%Z ∧ a = Fin (Qc_of_Z n).

(** The purchases in the order in which the loops of [makeContext] visit
    them, each with the age of its user, and the ages recorded under one
    name. *)
Definition purchaseLog (users : list User) : list (number * string) :=
  user ← users; purchase ← purchases user; [(age user, name purchase)].
Definition agesOfBuyers (users : list User) (key : string) : list number :=
  entry ← purchaseLog users; if decide (entry.2 = key) then [entry.1] else [].

(** The body of the inner [forEach] of [makeContext]: one purchase is added
    to [ageSums] and [ageCounts]. *)
Definition recordPurchase (totals : gmap string property * gmap string property)
    (entry : number * string) : gmap string property * gmap string property :=
  (assign totals.1 entry.2 (plus (or_zero (read totals.1 entry.2)) entry.1),
   assign totals.2 entry.2 (plus (or_zero (read totals.2 entry.2)) (Fin 1))).

(** A user whose one purchase has a name that every object inherits. *)
Definition gadget : Product :=
  {| name := "toString"; category := "eletronicos"; color := "preto";
     price := money 9999 |}.
Definition bruno : User := {| age := years 52; purchases := [gadget] |}.


(** The catalog with that product, and three users. *)
Definition bazaar : Context :=
  match makeContext (catalog ++ [gadget]) [rafael; bruno; ana] with
  | Ok context => context
  | Throw _ => contextOf []
  end.

(** * Properties *)

(** ** Runs on the small catalog *)

(** The numbers below are those of the embedding; a tensor of the library
    holds the float32 value nearest to each. *)

(** The context of the shop: categories and colors are numbered in the order
    of their first occurrence, and there are 2 + 2 + 2 dimensions. *)
Example shop_context :
  categoriesIndex shop !! "acessorios" = Some 0%nat ∧
  categoriesIndex shop !! "eletronicos" = Some 1%nat ∧
  colorsIndex shop !! "preto" = Some 0%nat ∧
  colorsIndex shop !! "cinza" = Some 1%nat ∧
  fraction (minAge shop) = Some (27 # 1)%Q ∧
  fraction (maxAge shop) = Some (35 # 1)%Q ∧
  fraction (minPrice shop) = Some (3999 # 100)%Q ∧
  fraction (maxPrice shop) = Some (19999 # 100)%Q ∧
  dimensions shop = 6%nat.
Proof. vm_compute. done. Qed.

(** The cap is the cheapest product and only the youngest user bought it:
    price 0 and age 0, then 0.4 at category 0 and 0.3 at color 0. *)
Example shop_encodeProduct_cap :
  map fraction <$> encodeProduct cap shop =
    Ok [Some 0; Some 0; Some (2 # 5); Some 0; Some (3 # 10); Some 0]%Q.
Proof. vm_compute. reflexivity. Qed.

(** Rafael bought the cap and the bag: the mean of their two vectors. *)
Example shop_encodeUser_rafael :
  fmap (M:=option) (map (map fraction)) <$> encodeUser rafael shop =
    Ok (Some [[Some (3 # 40); Some 0; Some (2 # 5); Some 0;
               Some (3 # 20); Some (3 # 20)]])%Q.
Proof. vm_compute. reflexivity. Qed.

(** Two users and three products: six rows of twelve numbers; Rafael bought
    the first two products and Ana the third. *)
Example shop_createTrainingData :
  fmap (M:=outcome)
    (λ td, (length (xs td), map length (xs td), map (map fraction) (ys td),
            inputDimension td))
    (Stub.createTrainingData shop) =
    Ok (6%nat, [12; 12; 12; 12; 12; 12]%nat,
        [[Some 1]; [Some 1]; [Some 0]; [Some 0]; [Some 0]; [Some 1]]%Q, 12%nat) ∧
  Train.createTrainingData shop = Stub.createTrainingData shop.
Proof. vm_compute. done. Qed.

(** ** Numbers and the result monad *)

Lemma truthy_not_zero a : truthy a = true → is_zero a = false.
Proof.
  destruct a as [x| | |]; simpl; try done.
  rewrite bool_decide_eq_true, bool_decide_eq_false. done.
Qed.

Lemma or_else_not_zero a b : is_zero b = false → is_zero (or_else a b) = false.
Proof.
  intros Hb. unfold or_else.
  destruct (truthy a) eqn:Ha; [by apply truthy_not_zero | done].
Qed.

Lemma div_not_zero a b : is_zero b = false → ∃ r, div a b = Ok r.
Proof. intros Hb. unfold div. rewrite Hb. eauto. Qed.

Lemma div_Fin (x y : Qc) : y ≠ 0 → div (Fin x) (Fin y) = Ok (Fin (x / y)).
Proof. intros Hy. unfold div. simpl. by rewrite bool_decide_eq_false_2. Qed.

Lemma sub_Fin (x y : Qc) : (Fin x - Fin y)%num = Fin (x - y).
Proof. done. Qed.

Lemma Qcminus_diag (x : Qc) : x - x = 0.
Proof. unfold Qcminus. apply Qcplus_opp_r. Qed.

Lemma Qcminus_eq_0 (x y : Qc) : x - y = 0 → x = y.
Proof.
  unfold Qcminus. intros H.
  apply (inj (λ z, z + - y)). by rewrite H, Qcplus_opp_r.
Qed.

Lemma Qcdiv_1_r (x : Qc) : x / 1 = x.
Proof. apply (right_id 1 Qcdiv). Qed.

Lemma Qcdiv_unit_interval (a b : Qc) : 0 ≤ a → a ≤ b → 0 < b → 0 ≤ a / b ≤ 1.
Proof.
  intros Ha Hab Hb. unfold Qcdiv.
  assert (0 < / b) as Hinv by by apply Qcinv_pos.
  split.
  - apply Qcmult_nonneg_nonneg; [done | by apply Qclt_le_weak].
  - rewrite <-(Qcmult_inv_r b) by (apply not_eq_sym, Qclt_not_eq; done).
    apply Qcmult_le_mono_nonneg_r; [by apply Qclt_le_weak | done].
Qed.

Lemma normalize_Fin_ne (v mn mx : Qc) :
  mn ≠ mx → normalize (Fin v) (Fin mn) (Fin mx) = Ok (Fin ((v - mn) / (mx - mn))).
Proof.
  intros Hne. unfold normalize. rewrite !sub_Fin.
  assert (mx - mn ≠ 0) as Hd by (intros H; apply Qcminus_eq_0 in H; done).
  unfold or_else. simpl. rewrite bool_decide_eq_true_2 by done.
  by apply div_Fin.
Qed.

Lemma normalize_Fin_eq (v m : Qc) :
  normalize (Fin v) (Fin m) (Fin m) = Ok (Fin (v - m)).
Proof.
  unfold normalize. rewrite !sub_Fin, Qcminus_diag.
  unfold or_else. simpl.
  rewrite div_Fin by done. by rewrite Qcdiv_1_r.
Qed.

Lemma normalize_total value min max : ∃ r, normalize value min max = Ok r.
Proof. apply div_not_zero, or_else_not_zero. done. Qed.

(** ** Normalisation *)

(** C2 (as amended).  For finite [min <= value <= max] whose difference
    [max - min] does not overflow, the normalised value lies in [[0,1]] and
    [min] is sent to 0; [max] is sent to 1 when [min < max], and to 0 when
    [min = max], where the divisor is 1. *)
Theorem normalize_unit_interval (value min max : Qc) :
  min ≤ value ≤ max → max - min ≤ MAX_VALUE →
  ∃ r, normalize (Fin value) (Fin min) (Fin max) = Ok (Fin r) ∧ 0 ≤ r ≤ 1 ∧
       normalize (Fin min) (Fin min) (Fin max) = Ok (Fin 0) ∧
       normalize (Fin max) (Fin min) (Fin max) =
         Ok (Fin (if decide (min = max) then 0 else 1)).
Proof.
  intros [Hlo Hhi] _.
  destruct (decide (min = max)) as [<-|Hne].
  - assert (value = min) as -> by by apply Qcle_antisym.
    exists 0. rewrite normalize_Fin_eq, Qcminus_diag. done.
  - assert (min < max) as Hlt.
    { destruct (Qcle_lt_or_eq min max) as [?|?]; [by etrans | done | done]. }
    assert (0 < max - min) as Hpos.
    { unfold Qcminus. by apply Qclt_minus_iff in Hlt. }
    exists ((value - min) / (max - min)).
    rewrite !normalize_Fin_ne by done. split; [done|]. split; [|split].
    + apply Qcdiv_unit_interval; [| |done].
      * unfold Qcminus. by apply Qcle_minus_iff in Hlo.
      * unfold Qcminus. by apply Qcplus_le_mono_r.
    + rewrite Qcminus_diag. unfold Qcdiv. by rewrite Qcmult_0_l.
    + unfold Qcdiv. rewrite Qcmult_inv_r; [done|].
      by apply not_eq_sym, Qclt_not_eq.
Qed.

Lemma normalize_unit_interval_witness :
  ∃ r, normalize (years 27) (years 18) (years 40) = Ok (Fin r) ∧ 0 ≤ r ≤ 1 ∧
       normalize (years 18) (years 18) (years 40) = Ok (Fin 0) ∧
       normalize (years 40) (years 18) (years 40) =
         Ok (Fin (if decide (Qc_of_Z 18 = Qc_of_Z 40) then 0 else 1)).
Proof.
  apply (normalize_unit_interval (Qc_of_Z 27) (Qc_of_Z 18) (Qc_of_Z 40)).
  - split; discriminate.
  - vm_compute. discriminate.
Defined.

(** C2, as stated, at [min = max = 5]: [max] is sent to 0, not to 1. *)
Lemma normalize_max_of_equal_bounds :
  Qc_of_Z 5 ≤ Qc_of_Z 5 ≤ Qc_of_Z 5 ∧
  normalize (years 5) (years 5) (years 5) = Ok (Fin 0) ∧
  normalize (years 5) (years 5) (years 5) ≠ Ok (Fin 1).
Proof.
  split; [split; discriminate|].
  unfold years. rewrite normalize_Fin_eq, Qcminus_diag. split; [done|].
  intros [=].
Qed.

(** ** Weighted one-hot vectors *)

Lemma mul_bool_Fin (b : bool) (w : Qc) :
  (num_of_bool b * Fin w)%num = if b then Fin w else Fin 0.
Proof.
  destruct b; simpl; f_equal; [apply Qcmult_1_l | apply Qcmult_0_l].
Qed.

Lemma oneHotWeighted_Some index len weight :
  (2 ≤ len)%nat →
  oneHotWeighted (Some index) len weight =
    Ok (map (λ j, (num_of_bool (j =? index)%nat * weight)%num) (seq 0 len)).
Proof.
  intros Hlen. unfold oneHotWeighted, tf.oneHot, tf.mul, tf.cast_float32.
  rewrite (proj2 (Nat.ltb_ge len 2) Hlen). simpl. by rewrite map_map.
Qed.

Lemma oneHotWeighted_None len weight :
  oneHotWeighted None len weight = Throw TfError.
Proof. unfold oneHotWeighted, tf.oneHot. by destruct (len <? 2)%nat. Qed.

Lemma oneHotWeighted_shallow index len weight :
  (len < 2)%nat → oneHotWeighted index len weight = Throw TfError.
Proof.
  intros Hlen. unfold oneHotWeighted, tf.oneHot.
  by rewrite (proj2 (Nat.ltb_lt len 2) Hlen).
Qed.

Lemma oneHotWeighted_Throw_inv index len weight e :
  oneHotWeighted index len weight = Throw e → e = TfError.
Proof.
  unfold oneHotWeighted, tf.oneHot.
  destruct (len <? 2)%nat; [by intros [= <-]|].
  destruct index; [done | by intros [= <-]].
Qed.

Lemma oneHotWeighted_Ok_inv index len weight t :
  oneHotWeighted index len weight = Ok t →
  length t = len ∧ (2 ≤ len)%nat ∧ is_Some index.
Proof.
  destruct (Nat.lt_ge_cases len 2) as [Hlen|Hlen].
  { by rewrite oneHotWeighted_shallow. }
  destruct index as [i|]; [|by rewrite oneHotWeighted_None].
  rewrite oneHotWeighted_Some by done.
  intros [= <-]. rewrite length_map, length_seq. eauto.
Qed.

Lemma oneHotWeighted_length index len weight t :
  oneHotWeighted index len weight = Ok t → length t = len.
Proof. by intros [? _]%oneHotWeighted_Ok_inv. Qed.






(** ** The sum of the weights *)

(** The binary64 constants are the doubles nearest to the decimal literals:
    each lies within half a unit in the last place of its literal. *)
Lemma Binary64_weights_nearest :
  Binary64.within 55 (4 # 10) Binary64.category ∧
  Binary64.within 55 (3 # 10) Binary64.color ∧
  Binary64.within 56 (2 # 10) Binary64.price ∧
  Binary64.within 57 (1 # 10) Binary64.age.
Proof. repeat split; vm_compute; discriminate. Qed.

(** C9, as stated, in the arithmetic of the code: the binary64 sum
    [category + color + price + age] is not 1.0. *)
Lemma sum_of_weights_not_one : Binary64.sum_of_weights ≠ 1%float.
Proof.
  intros H.
  discriminate (f_equal (λ x, PrimFloat.eqb x 1%float) H).
Qed.

(** C9 (as amended).  The four weights sum to 1 as decimal fractions.  Added
    as binary64 values in the order category, color, price, age, they give
    1 - 2^-53 (0.9999999999999999), one rounding step below 1.0; added in the
    opposite order they give exactly 1.0. *)
Theorem weights_sum :
  (WEIGHTS.category + WEIGHTS.color + WEIGHTS.price + WEIGHTS.age)%num = Fin 1 ∧
  Prim2SF Binary64.sum_of_weights = S754_finite false 9007199254740991 (-53) ∧
  Binary64.to_Q Binary64.sum_of_weights = Some (1 - Qpower 2 (-53))%Q ∧
  Binary64.sum_of_weights_reversed = 1%float.
Proof.
  split; [|split; [|split]].
  - simpl. f_equal. apply Qc_is_canon. reflexivity.
  - vm_compute. reflexivity.
  - vm_compute. reflexivity.
  - vm_compute. reflexivity.
Qed.

(** ** Loops that may throw *)

Lemma bind_Ok_inv {A B} (f : A → outcome B) (m : outcome A) (b : B) :
  m ≫= f = Ok b → ∃ a, m = Ok a ∧ f a = Ok b.
Proof. destruct m as [a|e]; [eauto | done]. Qed.

Lemma bind_Throw_inv {A B} (f : A → outcome B) (m : outcome A) (e : exn) :
  m ≫= f = Throw e → m = Throw e ∨ ∃ a, m = Ok a ∧ f a = Throw e.
Proof.
  destruct m as [a|e']; intros H; [right; eauto|].
  injection H as ->. by left.
Qed.

Lemma mapT_Ok {A B} (f : A → outcome B) (xs : list A) :
  Forall (λ x, ∃ y, f x = Ok y) xs →
  ∃ ys, mapT f xs = Ok ys ∧ Forall2 (λ x y, f x = Ok y) xs ys.
Proof.
  induction 1 as [|x xs [y Hy] _ (ys & Hys & Hall)].
  - exists []. split; [done | constructor].
  - exists (y :: ys). simpl. rewrite Hy. simpl. rewrite Hys.
    split; [done | by constructor].
Qed.

Lemma mapT_Ok_inv {A B} (f : A → outcome B) (xs : list A) (ys : list B) :
  mapT f xs = Ok ys → Forall2 (λ x y, f x = Ok y) xs ys.
Proof.
  revert ys. induction xs as [|x xs IH]; intros ys; simpl.
  - intros [= <-]. constructor.
  - intros (y & Hy & H)%bind_Ok_inv.
    apply bind_Ok_inv in H as (ys' & Hys & [= <-]).
    constructor; [done | by apply IH].
Qed.

Lemma mapT_Throw_inv {A B} (f : A → outcome B) (xs : list A) (e : exn) :
  mapT f xs = Throw e → ∃ x, x ∈ xs ∧ f x = Throw e.
Proof.
  induction xs as [|x xs IH]; simpl; [done|].
  intros [H|(y & Hy & H)]%bind_Throw_inv.
  - exists x. split; [left | done].
  - apply bind_Throw_inv in H as [H|(? & _ & [=])].
    destruct (IH H) as (x' & ? & ?). exists x'. split; [by right | done].
Qed.

Lemma forEach_app {S A} (f : S → A → outcome S) (xs ys : list A) (s : S) :
  forEach f (xs ++ ys) s = forEach f xs s ≫= forEach f ys.
Proof.
  revert s. induction xs as [|x xs IH]; intros s; simpl; [done|].
  destruct (f s x) as [s'|e]; simpl; [apply IH | done].
Qed.

Lemma forEach_Throw_elem {S A} (f : S → A → outcome S) (xs : list A) (s : S) x :
  x ∈ xs → (∀ s', ∃ e, f s' x = Throw e) → ∃ e, forEach f xs s = Throw e.
Proof.
  intros Hx Hf. revert s. induction xs as [|y xs IH]; intros s.
  - by apply elem_of_nil in Hx.
  - simpl. destruct (f s y) as [s'|e] eqn:Hy; simpl; [|eauto].
    apply elem_of_cons in Hx as [->|Hx]; [|by apply IH].
    destruct (Hf s) as [e He]. congruence.
Qed.

(** ** Lists of rows *)

Lemma bind_singleton_map {A B} (g : A → B) (xs : list A) :
  (x ← xs; [g x]) = map g xs.
Proof. induction xs as [|x xs IH]; [done|]. by rewrite bind_cons, IH. Qed.

Lemma length_bind_uniform {A B} (f : A → list B) (xs : list A) (n : nat) :
  (∀ x, x ∈ xs → length (f x) = n) → length (xs ≫= f) = (length xs * n)%nat.
Proof.
  induction xs as [|x xs IH]; intros Hf; [done|].
  rewrite bind_cons, length_app, Hf, IH; [done | | left].
  intros y Hy. apply Hf. by right.
Qed.

Lemma forallb_length_eq (rows : list (list number)) (n : nat) :
  Forall (λ row, length row = n) rows →
  forallb (λ row, length row =? n)%nat rows = true.
Proof.
  intros H. apply forallb_forall. intros row Hrow%list_elem_of_In.
  rewrite Forall_forall in H. by apply Nat.eqb_eq, H.
Qed.

Lemma tensor2d_uniform (rows : list (list number)) (n : nat) :
  rows ≠ [] → Forall (λ row, length row = n) rows → tf.tensor2d rows = Ok rows.
Proof.
  intros Hne H. unfold tf.tensor2d.
  destruct rows as [|row rows]; [done|].
  rewrite forallb_length_eq; [done|].
  apply Forall_cons in H as H'. destruct H' as [Hrow _].
  eapply Forall_impl; [exact H|]. simpl. intros; congruence.
Qed.

Lemma tensor2d_Ok_inv (rows t : list (list number)) :
  tf.tensor2d rows = Ok t → t = rows ∧ rows ≠ [].
Proof.
  unfold tf.tensor2d. destruct rows as [|row rows]; [done|].
  destruct (forallb _ _); [|done]. by intros [= <-].
Qed.

Lemma tensor2d_Throw_inv (rows : list (list number)) e :
  tf.tensor2d rows = Throw e → e = TfError.
Proof.
  unfold tf.tensor2d. destruct rows as [|row rows]; [by intros [= <-]|].
  destruct (forallb _ _); [done | by intros [= <-]].
Qed.

(** ** The encoders *)

Lemma encodeProduct_Ok_inv product context t :
  encodeProduct product context = Ok t →
  encodable context product ∧
  length t = (2 + numCategories context + numColors context)%nat.
Proof.
  unfold encodeProduct. intros (norm & _ & H)%bind_Ok_inv.
  apply bind_Ok_inv in H as (cat & Hcat & H).
  apply bind_Ok_inv in H as (col & Hcol & [= <-]).
  apply oneHotWeighted_Ok_inv in Hcat as (Hcat & _ & Hi).
  apply oneHotWeighted_Ok_inv in Hcol as (Hcol & _ & Hj).
  split; [done|].
  unfold tf.concat, tf.mul, tf.tensor1d. simpl.
  rewrite !length_app. simpl. lia.
Qed.

(** The library encodes nothing at a depth below two. *)
Lemma encodeProduct_Ok_depth product context t :
  encodeProduct product context = Ok t →
  (2 ≤ numCategories context)%nat ∧ (2 ≤ numColors context)%nat.
Proof.
  unfold encodeProduct. intros (norm & _ & H)%bind_Ok_inv.
  apply bind_Ok_inv in H as (cat & Hcat & H).
  apply bind_Ok_inv in H as (col & Hcol & _).
  apply oneHotWeighted_Ok_inv in Hcat as (_ & ? & _).
  by apply oneHotWeighted_Ok_inv in Hcol as (_ & ? & _).
Qed.

Lemma encodeProduct_encodable product context :
  encodable context product →
  (2 ≤ numCategories context)%nat → (2 ≤ numColors context)%nat →
  ∃ t, encodeProduct product context = Ok t.
Proof.
  intros [[i Hi] [j Hj]] Hcat Hcol. unfold encodeProduct.
  destruct (normalize_total (price product) (minPrice context) (maxPrice context))
    as [norm ->].
  rewrite Hi, Hj, !oneHotWeighted_Some by done. simpl. eauto.
Qed.

Lemma encodeProduct_Throw_inv product context e :
  encodeProduct product context = Throw e →
  e = TfError ∧
  (¬ encodable context product ∨
   (numCategories context < 2)%nat ∨ (numColors context < 2)%nat).
Proof.
  intros H. split.
  - revert H. unfold encodeProduct.
    destruct (normalize_total (price product) (minPrice context) (maxPrice context))
      as [norm ->].
    change (Ok norm ≫= ?f) with (f norm). cbv beta zeta.
    intros [H|(cat & _ & H)]%bind_Throw_inv;
      [by eapply oneHotWeighted_Throw_inv|].
    apply bind_Throw_inv in H as [H|(col & _ & [=])].
    by eapply oneHotWeighted_Throw_inv.
  - destruct (Nat.lt_ge_cases (numCategories context) 2) as [?|Hcat]; [auto|].
    destruct (Nat.lt_ge_cases (numColors context) 2) as [?|Hcol]; [auto|].
    left. intros Henc.
    destruct (encodeProduct_encodable _ _ Henc Hcat Hcol) as [t Ht]. congruence.
Qed.

Lemma productVector_Ok product context t :
  encodeProduct product context = Ok t → productVector context product = t.
Proof. unfold productVector. by intros ->. Qed.

Lemma num_of_nat_not_zero (n : nat) : n ≠ 0%nat → is_zero (num_of_nat n) = false.
Proof.
  intros Hn. unfold num_of_nat. simpl. apply bool_decide_eq_false_2.
  rewrite <-Z2Qc_inj_0. intros H%Z2Qc_inj. lia.
Qed.

Lemma stack_Ok (ts : list (list number)) (d : nat) :
  ts ≠ [] → Forall (λ t, length t = d) ts → tf.stack ts = Ok ts.
Proof.
  intros Hne Hall. destruct ts as [|t ts]; [done|]. unfold tf.stack.
  rewrite forallb_length_eq; [done|].
  apply Forall_cons in Hall as H. destruct H as [Ht _].
  eapply Forall_impl; [exact Hall|]. simpl. intros; congruence.
Qed.

Lemma stack_Ok_inv (ts stacked : list (list number)) :
  tf.stack ts = Ok stacked → stacked = ts ∧ ts ≠ [].
Proof.
  unfold tf.stack. destruct ts as [|t ts]; [done|].
  destruct (forallb _ _); [|done]. by intros [= <-].
Qed.

Lemma sum0_length (rows : list (list number)) (d : nat) :
  rows ≠ [] → Forall (λ row, length row = d) rows → length (tf.sum0 rows) = d.
Proof.
  induction rows as [|row rows IH]; [done|]. intros _ Hall.
  apply Forall_cons in Hall as [Hrow Hrows].
  destruct rows as [|row' rows]; [done|].
  change (tf.sum0 (row :: row' :: rows))
    with (zip_with add row (tf.sum0 (row' :: rows))).
  rewrite length_zip_with, Hrow, IH; [lia | done | done].
Qed.

Lemma mean0_Ok (rows : list (list number)) :
  rows ≠ [] → ∃ m, tf.mean0 rows = Ok m ∧ length m = length (tf.sum0 rows).
Proof.
  intros Hne. unfold tf.mean0.
  destruct (mapT_Ok (λ s, div s (num_of_nat (length rows))) (tf.sum0 rows))
    as (m & Hm & Hall).
  - apply Forall_forall. intros s _. apply div_not_zero, num_of_nat_not_zero.
    by destruct rows.
  - exists m. split; [done|]. symmetry. by eapply Forall2_length.
Qed.

Lemma encodeUser_no_purchase user context :
  purchases user = [] → encodeUser user context = Ok None.
Proof. intros H. unfold encodeUser. by rewrite H. Qed.

Lemma encodeUser_Ok user context :
  purchases user ≠ [] →
  Forall (encodable context) (purchases user) →
  dimensions context = (2 + numCategories context + numColors context)%nat →
  (2 ≤ numCategories context)%nat → (2 ≤ numColors context)%nat →
  ∃ row vectors,
    encodeUser user context = Ok (Some [row]) ∧
    length row = dimensions context ∧
    Forall2 (λ purchase v, encodeProduct purchase context = Ok v)
      (purchases user) vectors ∧
    tf.mean0 vectors = Ok row.
Proof.
  intros Hne Henc Hdim Hcat Hcol. unfold encodeUser.
  rewrite bool_decide_eq_true_2 by (by destruct (purchases user)).
  destruct (mapT_Ok (λ purchase, encodeProduct purchase context) (purchases user))
    as (vectors & Hvectors & Hall).
  { eapply Forall_impl; [exact Henc|]. intros p Hp.
    by apply encodeProduct_encodable. }
  rewrite Hvectors. simpl.
  assert (vectors ≠ []) as Hvne.
  { apply Forall2_length in Hall. destruct vectors; [|done].
    by destruct (purchases user). }
  assert (Forall (λ v, length v = dimensions context) vectors) as Hlen.
  { clear -Hall Hdim.
    induction Hall as [|purchase v ? ? Hv _ IH]; constructor; [|done].
    apply encodeProduct_Ok_inv in Hv as [_ ->]. by rewrite Hdim. }
  rewrite (stack_Ok vectors (dimensions context)) by done. simpl.
  destruct (mean0_Ok vectors Hvne) as (row & Hrow & Hrowlen).
  rewrite Hrow. simpl.
  rewrite (sum0_length vectors (dimensions context)) in Hrowlen by done.
  unfold tf.reshape_row. rewrite (proj2 (Nat.eqb_eq _ _) Hrowlen).
  exists row, vectors. done.
Qed.

Lemma encodeUser_Some_inv user context t :
  encodeUser user context = Ok (Some t) →
  ∃ row, t = [row] ∧ length row = dimensions context ∧ purchases user ≠ [].
Proof.
  unfold encodeUser. case_bool_decide as Hlen; [|done].
  intros (vectors & _ & H)%bind_Ok_inv.
  apply bind_Ok_inv in H as (stacked & _ & H).
  apply bind_Ok_inv in H as (mean & _ & H).
  apply bind_Ok_inv in H as (reshaped & Hre & [= <-]).
  unfold tf.reshape_row in Hre.
  destruct (Nat.eqb_spec (length mean) (dimensions context)); [|done].
  injection Hre as <-. exists mean. split; [done|]. split; [done|].
  by destruct (purchases user).
Qed.

Lemma encodeUser_None_inv user context :
  encodeUser user context = Ok None → purchases user = [].
Proof.
  unfold encodeUser. case_bool_decide as Hlen.
  - intros (vectors & _ & H)%bind_Ok_inv.
    apply bind_Ok_inv in H as (stacked & _ & H).
    apply bind_Ok_inv in H as (mean & _ & H).
    by apply bind_Ok_inv in H as (reshaped & Hre & [=]).
  - intros _. destruct (purchases user) as [|purchase rest]; [done|].
    simpl in Hlen. lia.
Qed.

Lemma encodeUser_Throw_inv user context e :
  encodeUser user context = Throw e → e = TfError.
Proof.
  unfold encodeUser. case_bool_decide as Hlen; [|done].
  intros [H|(vectors & _ & H)]%bind_Throw_inv.
  { apply mapT_Throw_inv in H as (purchase & _ & H).
    by apply encodeProduct_Throw_inv in H as [-> _]. }
  apply bind_Throw_inv in H as [H|(stacked & Hstacked & H)].
  { unfold tf.stack in H. destruct vectors; [congruence|].
    destruct (forallb _ _); congruence. }
  apply stack_Ok_inv in Hstacked as [-> Hne].
  apply bind_Throw_inv in H as [H|(mean & _ & H)].
  { destruct (mean0_Ok vectors Hne) as (m & Hm & _). congruence. }
  apply bind_Throw_inv in H as [H|(? & _ & [=])].
  unfold tf.reshape_row in H. destruct (_ =? _)%nat; congruence.
Qed.

Lemma userVector_Ok user context row :
  encodeUser user context = Ok (Some [row]) → userVector context user = row.
Proof. unfold userVector. intros ->. simpl. apply app_nil_r. Qed.

(** ** The training set *)



Lemma pushUser_Ok context inputs labels user t :
  encodeUser user context = Ok (Some t) →
  Forall (encodable context) (products context) →
  (2 ≤ numCategories context)%nat → (2 ≤ numColors context)%nat →
  pushUser context (inputs, labels) user =
    Ok (inputs ++ map (λ product, userVector context user ++ productVector context product)
                    (products context),
        labels ++ map (purchased user) (products context)).
Proof.
  intros Hu Hall Hcat Hcol. unfold pushUser, userVector. rewrite Hu. simpl.
  revert inputs labels.
  induction Hall as [|product ps Hp _ IH]; intros inputs labels; simpl.
  - by rewrite !app_nil_r.
  - destruct (encodeProduct_encodable _ _ Hp Hcat Hcol) as [v Hv].
    rewrite (productVector_Ok _ _ _ Hv), Hv. simpl.
    rewrite IH, <-!app_assoc. done.
Qed.

Lemma pushUser_no_purchase context acc user :
  purchases user = [] → pushUser context acc user = Throw TypeError.
Proof.
  intros H. unfold pushUser. by rewrite (encodeUser_no_purchase _ _ H).
Qed.

Lemma pushUser_Throw_inv context acc user e :
  pushUser context acc user = Throw e → e = TypeError ∨ e = TfError.
Proof.
  unfold pushUser.
  intros [H|(encoded & _ & H)]%bind_Throw_inv.
  { right. by eapply encodeUser_Throw_inv. }
  apply bind_Throw_inv in H as [H|(userVec & _ & H)].
  { left. destruct encoded; simpl in H; congruence. }
  right. revert acc H. induction (products context) as [|product ps IH]; [done|].
  intros [inputs labels]. simpl.
  intros [H|(acc' & _ & H)]%bind_Throw_inv; [|by eapply IH].
  apply bind_Throw_inv in H as [H|(? & _ & [=])].
  by apply encodeProduct_Throw_inv in H as [-> _].
Qed.

Lemma forEach_pushUser_Ok context us inputs labels :
  Forall (encodable context) (products context) →
  (2 ≤ numCategories context)%nat → (2 ≤ numColors context)%nat →
  Forall (λ user, ∃ t, encodeUser user context = Ok (Some t)) us →
  forEach (pushUser context) us (inputs, labels) =
    Ok (inputs ++ pairRows context us, labels ++ pairLabels context us).
Proof.
  intros Hps Hcat Hcol Hus. revert inputs labels. unfold pairRows, pairLabels.
  induction Hus as [|user us [t Ht] _ IH]; intros inputs labels; simpl.
  - by rewrite !app_nil_r.
  - rewrite (pushUser_Ok _ _ _ _ _ Ht Hps Hcat Hcol). simpl.
    rewrite IH, !bind_singleton_map, <-!app_assoc. done.
Qed.

Lemma pushUser_Ok_inv context inputs labels user acc :
  pushUser context (inputs, labels) user = Ok acc →
  acc = (inputs ++ map (λ product, userVector context user ++ productVector context product)
                     (products context),
         labels ++ map (purchased user) (products context)).
Proof.
  unfold pushUser, userVector.
  intros (encoded & -> & H)%bind_Ok_inv.
  apply bind_Ok_inv in H as (userVec & Hvec & H).
  destruct encoded as [t|]; [|done]. injection Hvec as <-.
  revert inputs labels H.
  induction (products context) as [|product ps IH]; intros inputs labels; simpl.
  - intros [= <-]. by rewrite !app_nil_r.
  - intros (acc' & H & Hrest)%bind_Ok_inv.
    apply bind_Ok_inv in H as (v & Hv & [= <-]).
    apply IH in Hrest as ->.
    by rewrite (productVector_Ok _ _ _ Hv), <-!app_assoc.
Qed.

Lemma forEach_pushUser_Ok_inv context us inputs labels acc :
  forEach (pushUser context) us (inputs, labels) = Ok acc →
  acc = (inputs ++ pairRows context us, labels ++ pairLabels context us).
Proof.
  unfold pairRows, pairLabels. revert inputs labels.
  induction us as [|user us IH]; intros inputs labels; simpl.
  - intros [= <-]. by rewrite !app_nil_r.
  - intros ([inputs' labels'] & H & Hrest)%bind_Ok_inv.
    apply pushUser_Ok_inv in H as [= -> ->]. apply IH in Hrest as ->.
    by rewrite !bind_singleton_map, <-!app_assoc.
Qed.

Lemma productVector_length context product :
  length (productVector context product) = 0%nat ∨
  length (productVector context product) =
    (2 + numCategories context + numColors context)%nat.
Proof.
  unfold productVector.
  destruct (encodeProduct product context) as [t|e] eqn:H; [|by left].
  right. by apply encodeProduct_Ok_inv in H as [_ ?].
Qed.

Lemma pairRows_uniform context us :
  Forall (encodable context) (products context) →
  (2 ≤ numCategories context)%nat → (2 ≤ numColors context)%nat →
  Forall (λ user, ∃ t, encodeUser user context = Ok (Some t)) us →
  Forall (λ row, length row =
            (dimensions context + (2 + numCategories context + numColors context))%nat)
    (pairRows context us).
Proof.
  intros Hps Hcat Hcol Hus. unfold pairRows. apply Forall_bind.
  eapply Forall_impl; [exact Hus|]. intros user [t Ht]. apply Forall_bind.
  eapply Forall_impl; [exact Hps|]. intros product Hp. constructor; [|done].
  apply encodeUser_Some_inv in Ht as Hrow. destruct Hrow as (row & -> & Hlen & _).
  rewrite (userVector_Ok _ _ _ Ht).
  destruct (encodeProduct_encodable _ _ Hp Hcat Hcol) as [v Hv].
  rewrite (productVector_Ok _ _ _ Hv), length_app, Hlen.
  by apply encodeProduct_Ok_inv in Hv as [_ ->].
Qed.

Lemma pairRows_nonempty context us :
  us ≠ [] → products context ≠ [] → pairRows context us ≠ [].
Proof.
  intros Hne Hpne Hnil. apply (f_equal length) in Hnil.
  unfold pairRows in Hnil.
  rewrite (length_bind_uniform _ _ (length (products context))) in Hnil.
  - destruct us; [done|]. destruct (products context); [done|]. simpl in Hnil. lia.
  - intros user _. by rewrite bind_singleton_map, length_map.
Qed.

(** The two workers run the same loop, on the users and on the buyers. *)
Lemma trainingLoop_Ok context us :
  us ≠ [] → products context ≠ [] →
  Forall (encodable context) (products context) →
  (2 ≤ numCategories context)%nat → (2 ≤ numColors context)%nat →
  Forall (λ user, ∃ t, encodeUser user context = Ok (Some t)) us →
  forEach (pushUser context) us ([], []) ≫= toTrainingData context =
    Ok {| xs := pairRows context us;
          ys := labelColumn (pairLabels context us);
          inputDimension := dimensions context * 2 |}.
Proof.
  intros Hne Hpne Hps Hcat Hcol Hus.
  rewrite (forEach_pushUser_Ok _ _ _ _ Hps Hcat Hcol Hus). simpl.
  rewrite (tensor2d_uniform _ _ (pairRows_nonempty _ _ Hne Hpne)
             (pairRows_uniform _ _ Hps Hcat Hcol Hus)).
  done.
Qed.

Lemma trainingLoop_Ok_inv context us td :
  forEach (pushUser context) us ([], []) ≫= toTrainingData context = Ok td →
  xs td = pairRows context us ∧
  ys td = labelColumn (pairLabels context us) ∧
  inputDimension td = (dimensions context * 2)%nat.
Proof.
  intros (acc & Hacc & H)%bind_Ok_inv.
  apply forEach_pushUser_Ok_inv in Hacc as ->. simpl in H.
  apply bind_Ok_inv in H as (rows & Hrows & [= <-]). simpl.
  by apply tensor2d_Ok_inv in Hrows as [-> _].
Qed.

Lemma buyers_spec (us : list User) user :
  user ∈ buyers us ↔ user ∈ us ∧ purchases user ≠ [].
Proof.
  unfold buyers. rewrite list_elem_of_filter.
  split.
  - intros [HP Hin]. split; [done|]. intros Hnil. apply HP. by rewrite Hnil.
  - intros [Hin Hne]. split; [|done]. by destruct (purchases user).
Qed.

Lemma buyers_all (us : list User) :
  Forall (λ user, purchases user ≠ []) us → buyers us = us.
Proof.
  unfold buyers. induction 1 as [|user us Hu _ IH]; [done|].
  rewrite filter_cons_True by (by destruct (purchases user)). by rewrite IH.
Qed.

Lemma users_encode context us :
  consistent context →
  (2 ≤ numCategories context)%nat → (2 ≤ numColors context)%nat →
  Forall (λ user, Forall (encodable context) (purchases user)) us →
  Forall (λ user, purchases user ≠ []) us →
  Forall (λ user, ∃ t, encodeUser user context = Ok (Some t)) us.
Proof.
  intros Hdim Hcat Hcol Henc Hne. rewrite Forall_forall in *. intros user Hin.
  destruct (encodeUser_Ok user context) as (row & _ & H & _); eauto.
Qed.

Lemma buyers_encode context :
  consistent context → allEncodable context →
  (2 ≤ numCategories context)%nat → (2 ≤ numColors context)%nat →
  Forall (λ user, ∃ t, encodeUser user context = Ok (Some t))
    (buyers (users context)).
Proof.
  intros Hdim [_ Henc] Hcat Hcol. apply users_encode; [done|done|done| |].
  - rewrite Forall_forall in *. intros user [Hin _]%buyers_spec. by apply Henc.
  - apply Forall_forall. by intros user [_ ?]%buyers_spec.
Qed.

Lemma length_pairRows context us :
  length (pairRows context us) = (length us * length (products context))%nat.
Proof.
  unfold pairRows. apply length_bind_uniform. intros user _.
  by rewrite bind_singleton_map, length_map.
Qed.

Lemma length_pairLabels context us :
  length (pairLabels context us) = (length us * length (products context))%nat.
Proof.
  unfold pairLabels. apply length_bind_uniform. intros user _.
  by rewrite bind_singleton_map, length_map.
Qed.


(** ** What a returned training set says of the context *)

Lemma encodeUser_Some_encodable user context t :
  encodeUser user context = Ok (Some t) →
  Forall (encodable context) (purchases user) ∧ consistent context.
Proof.
  unfold encodeUser. case_bool_decide as Hlen; [|done].
  intros (vectors & Hvectors & H)%bind_Ok_inv.
  apply bind_Ok_inv in H as (stacked & Hstacked & H).
  apply bind_Ok_inv in H as (mean & Hmean & H).
  apply bind_Ok_inv in H as (reshaped & Hre & _).
  apply mapT_Ok_inv in Hvectors. apply stack_Ok_inv in Hstacked as [-> Hne].
  assert (Forall (λ v, length v =
            (2 + numCategories context + numColors context)%nat) vectors) as Hlens.
  { clear -Hvectors. induction Hvectors as [|purchase v ? ? Hv _ IH]; constructor;
      [|done]. by apply encodeProduct_Ok_inv in Hv as [_ ?]. }
  split.
  - clear -Hvectors. induction Hvectors as [|purchase v ? ? Hv _ IH]; constructor;
      [|done]. by apply encodeProduct_Ok_inv in Hv as [? _].
  - unfold tf.mean0 in Hmean. apply mapT_Ok_inv, Forall2_length in Hmean.
    rewrite (sum0_length _ _ Hne Hlens) in Hmean.
    unfold tf.reshape_row in Hre.
    destruct (Nat.eqb_spec (length mean) (dimensions context)); [|done].
    unfold consistent. congruence.
Qed.

(** The row of a user comes from the vectors of the purchases. *)
Lemma encodeUser_vectors user context row :
  encodeUser user context = Ok (Some [row]) →
  ∃ vectors,
    Forall2 (λ purchase v, encodeProduct purchase context = Ok v)
      (purchases user) vectors ∧
    vectors ≠ [] ∧
    Forall (λ v, length v = dimensions context) vectors ∧
    tf.mean0 vectors = Ok row.
Proof.
  intros H. apply encodeUser_Some_encodable in H as Hctx. destruct Hctx as [_ Hdim].
  revert H. unfold encodeUser. case_bool_decide as Hlen; [|done].
  intros (vectors & Hvectors & H)%bind_Ok_inv.
  apply bind_Ok_inv in H as (stacked & Hstacked & H).
  apply bind_Ok_inv in H as (mean & Hmean & H).
  apply bind_Ok_inv in H as (reshaped & Hre & [= ->]).
  apply mapT_Ok_inv in Hvectors. apply stack_Ok_inv in Hstacked as [-> Hne].
  unfold tf.reshape_row in Hre.
  destruct (Nat.eqb_spec (length mean) (dimensions context)); [|done].
  injection Hre as ->. exists vectors. do 2 (split; [done|]). split; [|done].
  clear -Hvectors Hdim. induction Hvectors as [|purchase v ? ? Hv _ IH];
    constructor; [|done].
  apply encodeProduct_Ok_inv in Hv as [_ ->]. by rewrite Hdim.
Qed.

Lemma forEach_Ok_inv {S A} (f : S → A → outcome S) (xs : list A) (s s' : S) :
  forEach f xs s = Ok s' → Forall (λ x, ∃ s1 s2, f s1 x = Ok s2) xs.
Proof.
  revert s. induction xs as [|x xs IH]; intros s; simpl; [constructor|].
  intros (s1 & Hx & Hrest)%bind_Ok_inv. constructor; [eauto | by eapply IH].
Qed.

Lemma pushUser_Ok_encodes context acc acc' user :
  pushUser context acc user = Ok acc' →
  (∃ t, encodeUser user context = Ok (Some t)) ∧
  Forall (λ product, ∃ v, encodeProduct product context = Ok v) (products context).
Proof.
  unfold pushUser. intros (encoded & Hencoded & H)%bind_Ok_inv.
  apply bind_Ok_inv in H as (userVec & Hvec & H).
  destruct encoded as [t|]; [|done]. split; [eauto|].
  apply forEach_Ok_inv in H. eapply Forall_impl; [exact H|]. simpl.
  intros product ([inputs labels] & s2 & Hp).
  apply bind_Ok_inv in Hp as (v & Hv & _). eauto.
Qed.

(** A loop that has returned had a user and a product to make a row of, and
    has encoded every user and every product. *)
Lemma trainingLoop_Ok_encodes context us td :
  forEach (pushUser context) us ([], []) ≫= toTrainingData context = Ok td →
  us ≠ [] ∧ products context ≠ [] ∧
  Forall (λ user, ∃ t, encodeUser user context = Ok (Some t)) us ∧
  Forall (λ product, ∃ v, encodeProduct product context = Ok v) (products context) ∧
  consistent context.
Proof.
  intros (acc & Hacc & Htd)%bind_Ok_inv.
  apply forEach_pushUser_Ok_inv in Hacc as Hrows. subst acc. simpl in Htd.
  apply bind_Ok_inv in Htd as (rows & [_ Hrows]%tensor2d_Ok_inv & _).
  assert (us ≠ [] ∧ products context ≠ []) as [Hne Hpne].
  { split; intros Hnil; apply Hrows, length_zero_iff_nil;
      rewrite length_pairRows, Hnil; simpl; lia. }
  do 2 (split; [done|]).
  apply forEach_Ok_inv in Hacc.
  split; [|split].
  - eapply Forall_impl; [exact Hacc|]. simpl.
    by intros user (s1 & s2 & [? _]%pushUser_Ok_encodes).
  - destruct us as [|user us]; [done|].
    by apply Forall_cons in Hacc as [(s1 & s2 & [_ ?]%pushUser_Ok_encodes) _].
  - destruct us as [|user us]; [done|].
    apply Forall_cons in Hacc as [(s1 & s2 & [[t Ht] _]%pushUser_Ok_encodes) _].
    by apply encodeUser_Some_encodable in Ht as [_ ?].
Qed.

(** ** Rows of the training matrix *)

(** C1 (as amended).  Take a consistent context with at least one product,
    two categories and two colors, whose products and purchases are all
    encodable.  With at least one user who has bought something, the
    real-training worker returns a matrix with one row for each pair of such
    a user and a product, that is (number of such users) x (number of
    products) rows.  With at least one user, and every user having bought
    something, the stub worker returns the matrix of all (user, product)
    pairs, (number of users) x (number of products) rows. *)
Theorem training_rows context :
  consistent context → allEncodable context →
  (2 ≤ numCategories context)%nat → (2 ≤ numColors context)%nat →
  products context ≠ [] →
  (buyers (users context) ≠ [] →
   ∃ td, Train.createTrainingData context = Ok td ∧
         xs td = pairRows context (buyers (users context)) ∧
         length (xs td) =
           (length (buyers (users context)) * length (products context))%nat ∧
         length (ys td) = length (xs td)) ∧
  (users context ≠ [] →
   Forall (λ user, purchases user ≠ []) (users context) →
   ∃ td, Stub.createTrainingData context = Ok td ∧
         xs td = pairRows context (users context) ∧
         length (xs td) = (length (users context) * length (products context))%nat ∧
         length (ys td) = length (xs td)).
Proof.
  intros Hdim Henc Hcat Hcol Hproducts. split.
  - intros Hbuyers. eexists. split.
    + apply trainingLoop_Ok; [done | done | apply Henc | done | done |].
      by apply buyers_encode.
    + simpl. unfold labelColumn.
      by rewrite length_map, length_pairLabels, length_pairRows.
  - intros Husers Hne. eexists. split.
    + apply trainingLoop_Ok; [done | done | apply Henc | done | done |].
      apply users_encode; [done | done | done | apply Henc | done].
    + simpl. unfold labelColumn.
      by rewrite length_map, length_pairLabels, length_pairRows.
Qed.

Lemma training_rows_witness :
  (∃ td, Train.createTrainingData crowd = Ok td ∧
         xs td = pairRows crowd (buyers (users crowd)) ∧
         length (xs td) =
           (length (buyers (users crowd)) * length (products crowd))%nat ∧
         length (ys td) = length (xs td)) ∧
  (∃ td, Stub.createTrainingData shop = Ok td ∧
         xs td = pairRows shop (users shop) ∧
         length (xs td) = (length (users shop) * length (products shop))%nat ∧
         length (ys td) = length (xs td)).
Proof.
  split.
  - refine (proj1 (training_rows crowd _ _ _ _ _) _).
    + reflexivity.
    + unfold allEncodable, encodable. apply (bool_decide_unpack _). vm_compute. exact I.
    + vm_compute. lia.
    + vm_compute. lia.
    + intros H. apply (f_equal length) in H. vm_compute in H. discriminate.
    + intros H. apply (f_equal length) in H. vm_compute in H. discriminate.
  - refine (proj2 (training_rows shop _ _ _ _ _) _ _).
    + reflexivity.
    + unfold allEncodable, encodable. apply (bool_decide_unpack _). vm_compute. exact I.
    + vm_compute. lia.
    + vm_compute. lia.
    + intros H. apply (f_equal length) in H. vm_compute in H. discriminate.
    + intros H. apply (f_equal length) in H. vm_compute in H. discriminate.
    + apply (bool_decide_unpack _). vm_compute. exact I.
Defined.

(** C1, as stated, with three users of whom one has bought nothing and three
    products: 3 x 3 = 9, the real-training worker returns 6 rows and the stub
    worker throws. *)
Lemma training_rows_with_newcomer :
  (length (users crowd) * length (products crowd))%nat = 9%nat ∧
  (length ∘ xs <$> Train.createTrainingData crowd) = Ok 6%nat ∧
  Stub.createTrainingData crowd = Throw TypeError.
Proof. vm_compute. done. Qed.



(** ** Users who have bought nothing *)

(** C10.  For a user whose purchase list is empty [encodeUser] returns
    undefined.  The stub worker's [createTrainingData] then throws when such a
    user is among the users, with a TypeError once the users before have been
    processed.  The real-training worker runs the stub worker's loop on the
    users who have bought something: the user is not among them, and no row
    of a training set it returns belongs to a user outside them. *)
Theorem user_without_purchase context user :
  user ∈ users context → purchases user = [] →
  encodeUser user context = Ok None ∧
  (∃ e, Stub.createTrainingData context = Throw e) ∧
  (∀ before after acc,
     users context = before ++ user :: after →
     forEach (pushUser context) before ([], []) = Ok acc →
     Stub.createTrainingData context = Throw TypeError) ∧
  Train.createTrainingData context =
    Stub.createTrainingData (withUsers context (buyers (users context))) ∧
  (user ∉ buyers (users context)) ∧
  (∀ td, Train.createTrainingData context = Ok td →
         xs td = pairRows context (buyers (users context))).
Proof.
  intros Hin Hnil. split; [by apply encodeUser_no_purchase|].
  split.
  { unfold Stub.createTrainingData.
    destruct (forEach_Throw_elem (pushUser context) (users context) ([], []) user)
      as [e He]; [done| |].
    - intros acc. exists TypeError. by apply pushUser_no_purchase.
    - exists e. by rewrite He. }
  split.
  { intros before after acc Hsplit Hbefore. unfold Stub.createTrainingData.
    rewrite Hsplit, forEach_app, Hbefore. simpl.
    by rewrite pushUser_no_purchase. }
  split; [reflexivity|]. split.
  - rewrite buyers_spec. by intros [_ ?].
  - intros td Htd. by apply trainingLoop_Ok_inv in Htd as [? _].
Qed.

Lemma user_without_purchase_witness :
  encodeUser newcomer crowd = Ok None ∧
  Stub.createTrainingData crowd = Throw TypeError ∧
  Train.createTrainingData crowd =
    Stub.createTrainingData (withUsers crowd [rafael; ana]) ∧
  (newcomer ∉ buyers (users crowd)).
Proof.
  destruct (user_without_purchase crowd newcomer)
    as (Hundefined & _ & Hthrows & Hfiltered & Hout & _).
  - apply (bool_decide_unpack _). vm_compute. exact I.
  - reflexivity.
  - split; [exact Hundefined|]. split; [|split; [exact Hfiltered | exact Hout]].
    destruct (forEach (pushUser crowd) [rafael] ([], [])) as [acc|e] eqn:Hrafael.
    + apply (Hthrows [rafael] [ana] acc); [reflexivity | exact Hrafael].
    + exfalso. revert Hrafael. vm_compute. discriminate.
Defined.

(** ** The context *)

Lemma Set_spread_acc (xs seen : list string) :
  NoDup seen →
  let step := λ (seen : list string) x,
    if bool_decide (x ∈ seen) then seen else seen ++ [x] in
  NoDup (foldl step seen xs) ∧
  ∀ x, x ∈ foldl step seen xs ↔ x ∈ seen ∨ x ∈ xs.
Proof.
  intros Hseen step. revert seen Hseen.
  induction xs as [|y xs IH]; intros seen Hseen; simpl.
  - split; [done|]. intros x. rewrite elem_of_nil. tauto.
  - destruct (IH (step seen y)) as [Hnd Hel].
    + unfold step. case_bool_decide; [done|].
      apply NoDup_app. split; [done|]. split; [|apply NoDup_singleton].
      intros x Hx ->%list_elem_of_singleton. done.
    + split; [done|]. intros x. rewrite Hel, elem_of_cons. unfold step.
      case_bool_decide as Hy.
      * split; [tauto|]. intros [?|[->|?]]; auto.
      * rewrite elem_of_app, list_elem_of_singleton. tauto.
Qed.

Lemma NoDup_Set_spread (xs : list string) : NoDup (Set_spread xs).
Proof. apply (Set_spread_acc xs []). constructor. Qed.

Lemma elem_of_Set_spread (xs : list string) x : x ∈ Set_spread xs ↔ x ∈ xs.
Proof.
  unfold Set_spread.
  destruct (Set_spread_acc xs [] (NoDup_nil_2)) as [_ H].
  rewrite H, elem_of_nil. tauto.
Qed.

Lemma fromEntries_acc {V} (entries : list (string * V)) (obj : gmap string V) key :
  key ∉ entries.*1 →
  foldl (λ obj entry, <[entry.1 := entry.2]> obj) obj entries !! key = obj !! key.
Proof.
  revert obj. induction entries as [|[k v] entries IH]; intros obj Hkey; [done|].
  simpl in *. apply not_elem_of_cons in Hkey as [Hne Hkey].
  rewrite IH by done. by rewrite lookup_insert_ne.
Qed.

Lemma fromEntries_acc_elem {V} (entries : list (string * V)) (obj : gmap string V)
    key value :
  NoDup entries.*1 → (key, value) ∈ entries →
  foldl (λ obj entry, <[entry.1 := entry.2]> obj) obj entries !! key = Some value.
Proof.
  revert obj. induction entries as [|[k v] entries IH]; intros obj Hnd Hin.
  - by apply elem_of_nil in Hin.
  - simpl in *. apply NoDup_cons in Hnd as [Hk Hnd].
    apply elem_of_cons in Hin as [[= -> ->]|Hin]; [|by apply IH].
    rewrite fromEntries_acc by done. apply lookup_insert_eq.
Qed.

Lemma fromEntries_lookup {V} (entries : list (string * V)) key value :
  NoDup entries.*1 → (key, value) ∈ entries →
  fromEntries entries !! key = Some value.
Proof. apply fromEntries_acc_elem. Qed.

Lemma fromEntries_lookup_None {V} (entries : list (string * V)) key :
  key ∉ entries.*1 → fromEntries entries !! key = None.
Proof. intros H. unfold fromEntries. by rewrite fromEntries_acc. Qed.

Lemma fst_indexed (keys : list string) :
  (imap (λ index key, (key, index)) keys).*1 = keys.
Proof.
  rewrite fmap_imap. unfold compose. simpl.
  induction keys as [|key keys IH]; [done|]. simpl. f_equal.
  rewrite <-IH at 2. by apply imap_ext.
Qed.

(** The index maps of [makeContext]: the key at position [index] of the
    distinct values is mapped to [index], and nothing else is mapped. *)
Lemma indexed_lookup (keys : list string) key index :
  NoDup keys →
  fromEntries (imap (λ index key, (key, index)) keys) !! key = Some index ↔
  keys !! index = Some key.
Proof.
  intros Hnd. split.
  - intros H. destruct (decide (key ∈ keys)) as [Hin|Hout].
    + apply list_elem_of_lookup in Hin as [i Hi].
      rewrite (fromEntries_lookup _ key i) in H.
      * by injection H as <-.
      * by rewrite fst_indexed.
      * apply elem_of_lookup_imap. eauto.
    + rewrite fromEntries_lookup_None in H; [done|]. by rewrite fst_indexed.
  - intros H. apply fromEntries_lookup; [by rewrite fst_indexed|].
    apply elem_of_lookup_imap. eauto.
Qed.

(** A truthy value is not zero as a number: it is a number other than 0 and
    NaN, or it is not a number at all. *)
Lemma truthy_property_not_zero value :
  truthy_property value = true → is_zero (to_number value) = false.
Proof. destruct value as [|n|]; [done | apply truthy_not_zero | done]. Qed.

Lemma purchaserAvgAge_total ageSums ageCounts avgAge product :
  ∃ avg, purchaserAvgAge ageSums ageCounts avgAge product = Ok avg.
Proof.
  unfold purchaserAvgAge.
  destruct (truthy_property (read ageCounts (name product))) eqn:Hcount; [|eauto].
  by apply div_not_zero, truthy_property_not_zero.
Qed.

(** Nothing in the embedding of [makeContext] throws (see the header for
    the calls of [Math.min] and [Math.max]). *)
Lemma makeContext_total products users :
  ∃ context, makeContext products users = Ok context.
Proof.
  unfold makeContext.
  destruct (div_not_zero (Math_min (map age users) + Math_max (map age users))%num
              (Fin 2)) as [avgAge ->]; [done|]. simpl.
  destruct (ageTotals users) as [ageSums ageCounts].
  match goal with |- context [mapT ?f products] =>
    destruct (mapT_Ok f products) as (entries & -> & _) end.
  - apply Forall_forall. intros product _.
    destruct (purchaserAvgAge_total ageSums ageCounts avgAge product) as [avg ->].
    simpl.
    destruct (normalize_total avg (Math_min (map age users)) (Math_max (map age users)))
      as [norm ->]. simpl. eauto.
  - simpl. eauto.
Qed.

Lemma makeContext_Ok_inv products' users' context :
  makeContext products' users' = Ok context →
  products context = products' ∧ users context = users' ∧
  minAge context = Math_min (map age users') ∧
  maxAge context = Math_max (map age users') ∧
  minPrice context = Math_min (map price products') ∧
  maxPrice context = Math_max (map price products') ∧
  categoriesIndex context =
    fromEntries (imap (λ index category, (category, index))
                   (Set_spread (map category products'))) ∧
  colorsIndex context =
    fromEntries (imap (λ index color, (color, index))
                   (Set_spread (map color products'))) ∧
  numCategories context = length (Set_spread (map category products')) ∧
  numColors context = length (Set_spread (map color products')) ∧
  consistent context.
Proof.
  unfold makeContext. intros (avgAge & _ & H)%bind_Ok_inv.
  destruct (ageTotals users') as [ageSums ageCounts].
  apply bind_Ok_inv in H as (entries & _ & [= <-]).
  repeat (split; [reflexivity|]). reflexivity.
Qed.

Lemma makeContext_index_bounds products' users' context product :
  makeContext products' users' = Ok context →
  product ∈ products' →
  ∃ i j, categoriesIndex context !! category product = Some i ∧
         colorsIndex context !! color product = Some j ∧
         (i < numCategories context)%nat ∧ (j < numColors context)%nat.
Proof.
  intros (_ & _ & _ & _ & _ & _ & -> & -> & -> & -> & _)%makeContext_Ok_inv Hin.
  assert (category product ∈ Set_spread (map category products')) as Hcat.
  { apply elem_of_Set_spread, list_elem_of_fmap. eauto. }
  assert (color product ∈ Set_spread (map color products')) as Hcol.
  { apply elem_of_Set_spread, list_elem_of_fmap. eauto. }
  apply list_elem_of_lookup in Hcat as [i Hi], Hcol as [j Hj].
  exists i, j.
  rewrite !indexed_lookup by apply NoDup_Set_spread.
  repeat split; [done | done | by eapply lookup_lt_Some | by eapply lookup_lt_Some].
Qed.

Lemma makeContext_encodes_catalog products' users' context :
  makeContext products' users' = Ok context →
  Forall (encodable context) (products context).
Proof.
  intros H. apply makeContext_Ok_inv in H as Hinv. destruct Hinv as (-> & _).
  apply Forall_forall. intros product Hin.
  destruct (makeContext_index_bounds _ _ _ _ H Hin) as (i & j & Hi & Hj & _).
  split; eauto.
Qed.

Lemma mapT_pure {A B} (f : A → outcome B) (g : A → B) (xs : list A) :
  (∀ x, f x = Ok (g x)) → mapT f xs = Ok (map g xs).
Proof.
  intros Hf. induction xs as [|x xs IH]; [done|].
  simpl. by rewrite Hf, IH.
Qed.

Lemma fst_constant {V} (keys : list string) (value : V) :
  (map (λ k, (k, value)) keys).*1 = keys.
Proof. induction keys as [|k keys IH]; [done|]. simpl. f_equal. exact IH. Qed.

Lemma fromEntries_constant {V} (keys : list string) (value : V) key :
  key ∈ keys →
  fromEntries (map (λ k, (k, value)) keys) !! key = Some value.
Proof.
  unfold fromEntries. generalize (∅ : gmap string V).
  induction keys as [|k keys IH]; intros obj Hin; [by apply elem_of_nil in Hin|].
  simpl. destruct (decide (key ∈ keys)) as [Hin'|Hout]; [by apply IH|].
  apply elem_of_cons in Hin as [->|?]; [|done].
  rewrite fromEntries_acc; [apply lookup_insert_eq|].
  by rewrite fst_constant.
Qed.

(** With no user, the purchaser age of every product of the catalog is NaN:
    the mean of Infinity and -Infinity, normalised between them, or for a
    name that [ageCounts] inherits the quotient of two functions. *)
Lemma purchaserAvgAge_no_users avgAge product :
  avgAge = NaN → purchaserAvgAge ∅ ∅ avgAge product = Ok NaN.
Proof.
  intros ->. unfold purchaserAvgAge, read. rewrite !lookup_empty.
  by destruct (inherited (name product)).
Qed.

Lemma makeContext_no_users products' context product :
  makeContext products' [] = Ok context → product ∈ products' →
  productAvgAgeNorm context !! name product = Some NaN.
Proof.
  unfold makeContext. simpl.
  rewrite (mapT_pure _ (λ product, (name product, NaN))).
  - intros [= <-] Hin. simpl.
    rewrite <-(map_map name (λ k, (k, NaN))).
    by apply fromEntries_constant, list_elem_of_In, in_map, list_elem_of_In.
  - intros p. by rewrite purchaserAvgAge_no_users.
Qed.

(** C3, as stated, at the empty collections: [makeContext] raises nothing.
    It returns a context, with the bounds Infinity and -Infinity that
    [Math.min] and [Math.max] give on no argument; with a catalog and no
    user, the purchaser age of each product is NaN. *)
Lemma makeContext_of_nothing :
  makeContext [] [] = Ok emptyContext ∧
  (∃ context, makeContext catalog [] = Ok context ∧
     minAge context = PosInf ∧ maxAge context = NegInf ∧
     productAvgAgeNorm context !! name cap = Some NaN) ∧
  (∃ context, makeContext [] [rafael] = Ok context ∧
     minPrice context = PosInf ∧ maxPrice context = NegInf ∧
     dimensions context = 2%nat).
Proof.
  split; [reflexivity|]. split.
  - destruct (makeContext_total catalog []) as [context H]. exists context.
    split; [done|]. revert H. vm_compute. by intros [= <-].
  - destruct (makeContext_total [] [rafael]) as [context H]. exists context.
    split; [done|]. revert H. vm_compute. by intros [= <-].
Qed.

(** C3 (as amended).  An empty collection makes [makeContext] raise nothing.
    In a context it returns for no user, the age bounds are Infinity and
    -Infinity and the normalised purchaser age of every product is NaN; in a
    context it returns for no product, the price bounds are Infinity and
    -Infinity, there is no category and no color, and the dimension is 2. *)
Theorem makeContext_of_empty_collections products' users' context :
  makeContext products' users' = Ok context →
  (users' = [] →
     minAge context = PosInf ∧ maxAge context = NegInf ∧
     ∀ product, product ∈ products' →
       productAvgAgeNorm context !! name product = Some NaN) ∧
  (products' = [] →
     minPrice context = PosInf ∧ maxPrice context = NegInf ∧
     numCategories context = 0%nat ∧ numColors context = 0%nat ∧
     dimensions context = 2%nat).
Proof.
  intros H. apply makeContext_Ok_inv in H as Hinv.
  destruct Hinv as (_ & _ & -> & -> & -> & -> & _ & _ & Hcat & Hcol & Hdim).
  split.
  - intros ->. do 2 (split; [done|]). intros product.
    by apply makeContext_no_users.
  - intros ->. unfold consistent in Hdim. rewrite Hdim, Hcat, Hcol. done.
Qed.

Lemma makeContext_of_empty_collections_witness :
  (minAge (contextOf []) = PosInf ∧ maxAge (contextOf []) = NegInf ∧
   ∀ product, product ∈ catalog →
     productAvgAgeNorm (contextOf []) !! name product = Some NaN) ∧
  (minPrice emptyContext = PosInf ∧ maxPrice emptyContext = NegInf ∧
   numCategories emptyContext = 0%nat ∧ numColors emptyContext = 0%nat ∧
   dimensions emptyContext = 2%nat).
Proof.
  split.
  - refine (proj1 (makeContext_of_empty_collections catalog [] (contextOf []) _) _);
      [vm_compute | ]; reflexivity.
  - refine (proj2 (makeContext_of_empty_collections [] [] emptyContext _) _);
      reflexivity.
Defined.

(** ** Dimensions *)

(** C6, as stated, on a catalog of one category: the category and the
    color of the cap are keys of the index maps, and so are those of all that
    Rafael has bought, yet neither the cap nor Rafael is encoded: the library
    refuses a one-hot vector of depth 1. *)
Lemma one_category_catalog :
  makeContext [cap; bag] [rafael] = Ok boutique ∧
  numCategories boutique = 1%nat ∧
  encodable boutique cap ∧
  encodeProduct cap boutique = Throw TfError ∧
  purchases rafael ≠ [] ∧ Forall (encodable boutique) (purchases rafael) ∧
  encodeUser rafael boutique = Throw TfError.
Proof.
  split; [vm_compute; reflexivity|]. split; [reflexivity|].
  split; [unfold encodable; apply (bool_decide_unpack _); vm_compute; exact I|].
  split; [vm_compute; reflexivity|]. split; [done|].
  split; [|vm_compute; reflexivity].
  unfold encodable. apply (bool_decide_unpack _). vm_compute. exact I.
Qed.

(** C6 (as amended).  In a context built by [makeContext] the dimension is
    2 + numCategories + numColors.  When there are two categories and two
    colors at least, every product whose category and color are keys of the
    index maps is encoded as a vector of that length, and so is every product
    of the catalog; every user with a purchase, all of whose purchases have
    their category and color in the maps, is encoded as one row of that
    length. *)
Theorem encodings_have_the_dimension products' users' context :
  makeContext products' users' = Ok context →
  (2 ≤ numCategories context)%nat → (2 ≤ numColors context)%nat →
  dimensions context = (2 + numCategories context + numColors context)%nat ∧
  (∀ product, encodable context product →
     ∃ t, encodeProduct product context = Ok t ∧ length t = dimensions context) ∧
  (∀ product, product ∈ products' →
     ∃ t, encodeProduct product context = Ok t ∧ length t = dimensions context) ∧
  (∀ user, purchases user ≠ [] → Forall (encodable context) (purchases user) →
     ∃ row, encodeUser user context = Ok (Some [row]) ∧
            length row = dimensions context ∧
            length (tf.dataSync2 [row]) = dimensions context).
Proof.
  intros H Hcat Hcol. apply makeContext_Ok_inv in H as Hinv.
  destruct Hinv as (Hps & _ & _ & _ & _ & _ & _ & _ & _ & _ & Hdim).
  assert (∀ product, encodable context product →
     ∃ t, encodeProduct product context = Ok t ∧ length t = dimensions context)
    as Hproduct.
  { intros product Henc.
    destruct (encodeProduct_encodable _ _ Henc Hcat Hcol) as [t Ht].
    exists t. split; [done|].
    apply encodeProduct_Ok_inv in Ht as [_ ->]. by rewrite Hdim. }
  split; [done|]. split; [done|]. split.
  - intros product Hin. apply Hproduct.
    apply makeContext_encodes_catalog in H. rewrite Hps in H.
    by apply (proj1 (Forall_forall _ _) H).
  - intros user Hne Henc.
    destruct (encodeUser_Ok user context Hne Henc Hdim Hcat Hcol)
      as (row & _ & Hrow & Hlen & _).
    exists row. split; [done|]. split; [done|].
    unfold tf.dataSync2. simpl. by rewrite length_app, Nat.add_0_r.
Qed.

Lemma encodings_have_the_dimension_witness :
  dimensions crowd = (2 + numCategories crowd + numColors crowd)%nat ∧
  (∀ product, encodable crowd product →
     ∃ t, encodeProduct product crowd = Ok t ∧ length t = dimensions crowd) ∧
  (∀ product, product ∈ catalog →
     ∃ t, encodeProduct product crowd = Ok t ∧ length t = dimensions crowd) ∧
  (∀ user, purchases user ≠ [] → Forall (encodable crowd) (purchases user) →
     ∃ row, encodeUser user crowd = Ok (Some [row]) ∧
            length row = dimensions crowd ∧
            length (tf.dataSync2 [row]) = dimensions crowd).
Proof.
  apply (encodings_have_the_dimension catalog [rafael; newcomer; ana] crowd).
  - vm_compute. reflexivity.
  - vm_compute. lia.
  - vm_compute. lia.
Defined.

(** ** Division *)

Lemma forEach_Throw_inv {S A} (f : S → A → outcome S) (xs : list A) (s : S) e :
  forEach f xs s = Throw e → ∃ s' x, x ∈ xs ∧ f s' x = Throw e.
Proof.
  revert s. induction xs as [|x xs IH]; intros s; simpl; [done|].
  intros [H|(s' & _ & H)]%bind_Throw_inv.
  - exists s, x. split; [left | done].
  - destruct (IH _ H) as (s'' & y & Hy & Hf). exists s'', y. split; [by right | done].
Qed.

Lemma trainingLoop_Throw_inv context us e :
  forEach (pushUser context) us ([], []) ≫= toTrainingData context = Throw e →
  e = TypeError ∨ e = TfError.
Proof.
  intros [H|([inputs labels] & _ & H)]%bind_Throw_inv.
  - apply forEach_Throw_inv in H as (acc & user & _ & H).
    by eapply pushUser_Throw_inv.
  - right. simpl in H. apply bind_Throw_inv in H as [H|(? & _ & [=])].
    by apply tensor2d_Throw_inv in H.
Qed.

Lemma normalize_equal_bounds value m :
  normalize value m m = div (value - m)%num (Fin 1).
Proof.
  unfold normalize. f_equal. destruct m as [x| | |]; try done.
  unfold or_else. simpl. by rewrite Qcplus_opp_r.
Qed.

(** C8.  A division by zero ends a run with [DivisionByZero]; no run of the
    encoding pipeline ends so.  [normalize] returns for all its arguments,
    and divides by 1 when [max] is [min].  The average purchaser age of a
    product is computed for every state of the two objects: the division is
    reached only when the count read from [ageCounts] is truthy, and what is
    truthy is not zero as a number; otherwise the average of the bounds is
    taken.  [makeContext], the encoders and the two [createTrainingData]
    never end with [DivisionByZero]. *)
Theorem no_division_by_zero :
  (∀ a, div a (Fin 0) = Throw DivisionByZero) ∧
  (∀ value min max, ∃ r, normalize value min max = Ok r) ∧
  (∀ value m, normalize value m m = div (value - m)%num (Fin 1)) ∧
  (∀ ageSums ageCounts avgAge product,
     (truthy_property (read ageCounts (name product)) = true →
        is_zero (to_number (read ageCounts (name product))) = false ∧
        purchaserAvgAge ageSums ageCounts avgAge product =
          div (to_number (read ageSums (name product)))
              (to_number (read ageCounts (name product)))) ∧
     (truthy_property (read ageCounts (name product)) = false →
        purchaserAvgAge ageSums ageCounts avgAge product = Ok avgAge) ∧
     ∃ avg, purchaserAvgAge ageSums ageCounts avgAge product = Ok avg) ∧
  (∀ products users, makeContext products users ≠ Throw DivisionByZero) ∧
  (∀ product context, encodeProduct product context ≠ Throw DivisionByZero) ∧
  (∀ user context, encodeUser user context ≠ Throw DivisionByZero) ∧
  (∀ context, Stub.createTrainingData context ≠ Throw DivisionByZero) ∧
  (∀ context, Train.createTrainingData context ≠ Throw DivisionByZero).
Proof.
  split; [done|].
  split; [apply normalize_total|].
  split; [apply normalize_equal_bounds|].
  split.
  { intros ageSums ageCounts avgAge product. split; [|split].
    - intros Hcount. split; [by apply truthy_property_not_zero|].
      unfold purchaserAvgAge. by rewrite Hcount.
    - intros Hcount. unfold purchaserAvgAge. by rewrite Hcount.
    - apply purchaserAvgAge_total. }
  split.
  { intros products' users' H.
    destruct (makeContext_total products' users') as [context Hcontext].
    congruence. }
  split; [by intros ?? [[=] _]%encodeProduct_Throw_inv|].
  split; [by intros ?? [=]%encodeUser_Throw_inv|].
  split; intros context [[=]|[=]]%trainingLoop_Throw_inv.
Qed.

(** * Further properties *)

(** ** When the encoders and the training set fail *)

Lemma encodeProduct_not_encodable product context :
  ¬ encodable context product → encodeProduct product context = Throw TfError.
Proof.
  intros Hnot. destruct (encodeProduct product context) as [t|e] eqn:H.
  - by apply encodeProduct_Ok_inv in H as [? _].
  - by apply encodeProduct_Throw_inv in H as [-> _].
Qed.

Lemma pushUser_TypeError_inv context acc user :
  pushUser context acc user = Throw TypeError → purchases user = [].
Proof.
  unfold pushUser. intros [H|(encoded & Hencoded & H)]%bind_Throw_inv.
  { by apply encodeUser_Throw_inv in H. }
  destruct encoded as [t|]; [|by eapply encodeUser_None_inv].
  simpl in H. exfalso. revert acc H.
  induction (products context) as [|product ps IH]; [done|].
  intros [inputs labels]. simpl.
  intros [H|(acc' & _ & H)]%bind_Throw_inv; [|by eapply IH].
  apply bind_Throw_inv in H as [H|(? & _ & [=])].
  by apply encodeProduct_Throw_inv in H as [[=] _].
Qed.

(** When the loop of [createTrainingData] returns, on the users [us]. *)
Lemma trainingLoop_returns context us :
  (∃ td, forEach (pushUser context) us ([], []) ≫= toTrainingData context = Ok td) ↔
  us ≠ [] ∧ products context ≠ [] ∧
  (2 ≤ numCategories context)%nat ∧ (2 ≤ numColors context)%nat ∧
  consistent context ∧ Forall (encodable context) (products context) ∧
  Forall (λ user, purchases user ≠ [] ∧
                  Forall (encodable context) (purchases user)) us.
Proof.
  split.
  - intros [td Htd].
    apply trainingLoop_Ok_encodes in Htd as (Hne & Hpne & Hus & Hps & Hdim).
    do 2 (split; [done|]).
    assert ((2 ≤ numCategories context)%nat ∧ (2 ≤ numColors context)%nat)
      as [Hcat Hcol].
    { destruct (products context) as [|product ps]; [done|].
      apply Forall_cons in Hps as [[v Hv] _]. by eapply encodeProduct_Ok_depth. }
    do 3 (split; [done|]). split.
    + eapply Forall_impl; [exact Hps|]. simpl.
      by intros product [v [? _]%encodeProduct_Ok_inv].
    + eapply Forall_impl; [exact Hus|]. simpl. intros u [t Ht]. split.
      * by apply encodeUser_Some_inv in Ht as (? & _ & _ & ?).
      * by apply encodeUser_Some_encodable in Ht as [? _].
  - intros (Hne & Hpne & Hcat & Hcol & Hdim & Hps & Hus).
    eexists. apply trainingLoop_Ok; [done..|].
    apply users_encode; [done..| |];
      (eapply Forall_impl; [exact Hus|]); by intros ? [? ?].
Qed.

Lemma buyers_bought (us : list User) :
  Forall (λ user, purchases user ≠ []) (buyers us).
Proof. apply Forall_forall. by intros user [_ ?]%buyers_spec. Qed.

Lemma trainingLoop_TypeError_inv context us :
  forEach (pushUser context) us ([], []) ≫= toTrainingData context = Throw TypeError →
  ∃ user, user ∈ us ∧ purchases user = [].
Proof.
  intros [H|([inputs labels] & _ & H)]%bind_Throw_inv.
  - apply forEach_Throw_inv in H as (acc & user & Hin & H).
    exists user. split; [done|]. by eapply pushUser_TypeError_inv.
  - simpl in H. apply bind_Throw_inv in H as [H|(? & _ & [=])].
    by apply tensor2d_Throw_inv in H.
Qed.

Lemma trainingLoop_of_buyers_Throw_inv context us e :
  forEach (pushUser context) (buyers us) ([], []) ≫= toTrainingData context = Throw e →
  e = TfError.
Proof.
  intros He. destruct (trainingLoop_Throw_inv _ _ _ He) as [-> | ->]; [|done].
  apply trainingLoop_TypeError_inv in He as (user & Hin & Hnil).
  by apply buyers_spec in Hin as [_ ?].
Qed.

(** X1.  Take a context with at least one product, at least two categories
    and two colors (the tensor library refuses a one-hot depth below two and
    an empty matrix), and at least one user who has bought something.  Then
    the real-training worker's
    [createTrainingData] returns a training set exactly when the context is
    consistent and every product of the catalog and every purchase of a user
    who has bought something has its category and color in the index maps.
    When it does not return it throws the tensor library's error, never a
    TypeError. *)
Theorem Train_createTrainingData_returns context :
  buyers (users context) ≠ [] → products context ≠ [] →
  (2 ≤ numCategories context)%nat → (2 ≤ numColors context)%nat →
  ((∃ td, Train.createTrainingData context = Ok td) ↔
     consistent context ∧ Forall (encodable context) (products context) ∧
     Forall (λ user, Forall (encodable context) (purchases user))
       (buyers (users context))) ∧
  (∀ e, Train.createTrainingData context = Throw e → e = TfError).
Proof.
  intros Hbuyers Hproducts Hcat Hcol. split.
  - unfold Train.createTrainingData. fold (buyers (users context)).
    rewrite trainingLoop_returns. split.
    + intros (_ & _ & _ & _ & Hdim & Hps & Hus). do 2 (split; [done|]).
      eapply Forall_impl; [exact Hus|]. by intros user [_ ?].
    + intros (Hdim & Hps & Hus). do 6 (split; [done|]).
      apply Forall_forall. intros user Hin. split.
      * by apply buyers_spec in Hin as [_ ?].
      * by apply (proj1 (Forall_forall _ _) Hus).
  - intros e. apply trainingLoop_of_buyers_Throw_inv.
Qed.

Lemma Train_createTrainingData_returns_witness :
  ((∃ td, Train.createTrainingData crowd = Ok td) ↔
     consistent crowd ∧ Forall (encodable crowd) (products crowd) ∧
     Forall (λ user, Forall (encodable crowd) (purchases user))
       (buyers (users crowd))) ∧
  (∀ e, Train.createTrainingData crowd = Throw e → e = TfError).
Proof.
  apply (Train_createTrainingData_returns crowd).
  - intros H. apply (f_equal length) in H. vm_compute in H. discriminate.
  - intros H. apply (f_equal length) in H. vm_compute in H. discriminate.
  - vm_compute. lia.
  - vm_compute. lia.
Defined.

(** X2.  For a context with at least one user, one product, two categories
    and two colors, the stub worker's [createTrainingData] returns a training
    set exactly when the context is consistent, every product of the catalog
    has its category and color in the index maps, and every user has bought
    something, all of it with category and color in the maps.  A TypeError
    means that some user has bought nothing, and when every user has bought
    something the two workers give the same result. *)
Theorem Stub_createTrainingData_returns context :
  users context ≠ [] → products context ≠ [] →
  (2 ≤ numCategories context)%nat → (2 ≤ numColors context)%nat →
  ((∃ td, Stub.createTrainingData context = Ok td) ↔
     consistent context ∧ Forall (encodable context) (products context) ∧
     Forall (λ user, purchases user ≠ [] ∧
                     Forall (encodable context) (purchases user))
       (users context)) ∧
  (Stub.createTrainingData context = Throw TypeError →
     ∃ user, user ∈ users context ∧ purchases user = []) ∧
  (Forall (λ user, purchases user ≠ []) (users context) →
     Stub.createTrainingData context = Train.createTrainingData context).
Proof.
  intros Husers Hproducts Hcat Hcol. split; [|split].
  - unfold Stub.createTrainingData. rewrite trainingLoop_returns.
    split; [by intros (_ & _ & _ & _ & ?) | by intros ?].
  - apply trainingLoop_TypeError_inv.
  - intros Hall. unfold Stub.createTrainingData, Train.createTrainingData.
    by rewrite <-(buyers_all _ Hall) at 1.
Qed.

Lemma Stub_createTrainingData_returns_witness :
  ((∃ td, Stub.createTrainingData crowd = Ok td) ↔
     consistent crowd ∧ Forall (encodable crowd) (products crowd) ∧
     Forall (λ user, purchases user ≠ [] ∧
                     Forall (encodable crowd) (purchases user))
       (users crowd)) ∧
  (Stub.createTrainingData crowd = Throw TypeError →
     ∃ user, user ∈ users crowd ∧ purchases user = []) ∧
  (Forall (λ user, purchases user ≠ []) (users crowd) →
     Stub.createTrainingData crowd = Train.createTrainingData crowd).
Proof.
  apply (Stub_createTrainingData_returns crowd).
  - intros H. apply (f_equal length) in H. vm_compute in H. discriminate.
  - intros H. apply (f_equal length) in H. vm_compute in H. discriminate.
  - vm_compute. lia.
  - vm_compute. lia.
Defined.

(** X3.  In a training set that either worker returns, every row of the
    matrix has [inputDimension] entries, there is one label a row, and each
    label is 0 or 1. *)
Theorem training_set_shape context td :
  Train.createTrainingData context = Ok td ∨
  Stub.createTrainingData context = Ok td →
  Forall (λ row, length row = inputDimension td) (xs td) ∧
  length (ys td) = length (xs td) ∧
  Forall (λ row, row = [Fin 0] ∨ row = [Fin 1]) (ys td).
Proof.
  assert (∀ us,
    forEach (pushUser context) us ([], []) ≫= toTrainingData context = Ok td →
    Forall (λ row, length row = inputDimension td) (xs td) ∧
    length (ys td) = length (xs td) ∧
    Forall (λ row, row = [Fin 0] ∨ row = [Fin 1]) (ys td)) as Hloop.
  { intros us Htd.
    apply trainingLoop_Ok_encodes in Htd as Henc.
    destruct Henc as (_ & _ & Hus & _).
    destruct (proj1 (trainingLoop_returns context us) (ex_intro _ td Htd))
      as (_ & _ & Hcat & Hcol & Hdim & Hps & _).
    apply trainingLoop_Ok_inv in Htd as (-> & -> & ->).
    split; [|split].
    - eapply Forall_impl; [by apply pairRows_uniform|]. simpl.
      intros row ->. unfold consistent in Hdim. lia.
    - unfold labelColumn.
      by rewrite length_map, length_pairLabels, length_pairRows.
    - unfold labelColumn. apply Forall_forall.
      intros row (label & -> & _)%list_elem_of_fmap. destruct label; auto. }
  intros [H|H]; by eapply Hloop.
Qed.

Lemma training_set_shape_witness :
  Forall (λ row, length row = inputDimension shopTraining) (xs shopTraining) ∧
  length (ys shopTraining) = length (xs shopTraining) ∧
  Forall (λ row, row = [Fin 0] ∨ row = [Fin 1]) (ys shopTraining).
Proof.
  apply (training_set_shape shop shopTraining).
  right. vm_compute. reflexivity.
Defined.

(** X4.  A product whose category or color is not a key of the index maps
    cannot be encoded: [encodeProduct] throws the tensor library's error, and
    so does [encodeUser] for every user who has bought it.  With such a user
    among the users both [createTrainingData] throw, and so does the
    real-training worker's when the product is in the catalog and some user
    has bought something. *)
Theorem unknown_key_throws context product :
  ¬ encodable context product →
  encodeProduct product context = Throw TfError ∧
  (∀ user, product ∈ purchases user →
     encodeUser user context = Throw TfError) ∧
  (∀ user, user ∈ users context → product ∈ purchases user →
     Train.createTrainingData context = Throw TfError ∧
     ∃ e, Stub.createTrainingData context = Throw e) ∧
  (product ∈ products context → buyers (users context) ≠ [] →
     Train.createTrainingData context = Throw TfError).
Proof.
  intros Hnot.
  assert (∀ user, product ∈ purchases user →
            encodeUser user context = Throw TfError) as Huser.
  { intros user Hin. destruct (encodeUser user context) as [[t|]|e] eqn:H.
    - apply encodeUser_Some_encodable in H as [Hall _].
      by destruct Hnot; apply (proj1 (Forall_forall _ _) Hall).
    - apply encodeUser_None_inv in H. rewrite H in Hin. by apply elem_of_nil in Hin.
    - by apply encodeUser_Throw_inv in H as ->. }
  assert ((∀ td, Train.createTrainingData context ≠ Ok td) →
            Train.createTrainingData context = Throw TfError) as Htrain.
  { intros Hno. destruct (Train.createTrainingData context) as [td|e] eqn:H.
    - by destruct (Hno td).
    - by apply trainingLoop_of_buyers_Throw_inv in H as ->. }
  split; [by apply encodeProduct_not_encodable|]. split; [done|]. split.
  - intros user Hin Hbought. split.
    + apply Htrain. intros td Htd.
      apply trainingLoop_Ok_encodes in Htd as (_ & _ & Hall & _).
      assert (user ∈ buyers (users context)) as Hbuyer.
      { apply buyers_spec. split; [done|]. intros Hnil. rewrite Hnil in Hbought.
        by apply elem_of_nil in Hbought. }
      destruct (proj1 (Forall_forall _ _) Hall user Hbuyer) as [t Ht].
      rewrite (Huser user Hbought) in Ht. done.
    + destruct (Stub.createTrainingData context) as [td|e] eqn:Htd; [|eauto].
      apply trainingLoop_Ok_encodes in Htd as (_ & _ & Hall & _).
      destruct (proj1 (Forall_forall _ _) Hall user Hin) as [t Ht].
      rewrite (Huser user Hbought) in Ht. done.
  - intros Hin Hne. apply Htrain. intros td Htd.
    apply trainingLoop_Ok_encodes in Htd as (_ & _ & _ & Hps & _).
    destruct (proj1 (Forall_forall _ _) Hps product Hin) as [v Hv].
    by apply encodeProduct_Ok_inv in Hv as [? _].
Qed.

Lemma unknown_key_throws_witness :
  encodeProduct scarf market = Throw TfError ∧
  encodeUser clara market = Throw TfError ∧
  Train.createTrainingData market = Throw TfError ∧
  ∃ e, Stub.createTrainingData market = Throw e.
Proof.
  destruct (unknown_key_throws market scarf) as (Hproduct & Huser & Htraining & _).
  - apply (bool_decide_unpack _). vm_compute. exact I.
  - split; [exact Hproduct|]. split.
    + apply Huser. apply (bool_decide_unpack _). vm_compute. exact I.
    + apply (Htraining clara);
        apply (bool_decide_unpack _); vm_compute; exact I.
Defined.

(** ** The index maps *)

Lemma Set_spread_head (x : string) (xs : list string) :
  Set_spread (x :: xs) !! 0%nat = Some x.
Proof.
  unfold Set_spread. simpl.
  assert (∀ seen : list string, seen !! 0%nat = Some x →
    foldl (λ seen y, if bool_decide (y ∈ seen) then seen else seen ++ [y]) seen xs
      !! 0%nat = Some x) as H; [|by apply H].
  induction xs as [|y xs IH]; intros seen Hseen; [done|].
  simpl. apply IH. case_bool_decide; [done|].
  by apply lookup_app_l_Some.
Qed.

(** The map from the distinct keys of a list to their positions. *)
Lemma index_map_spec (keys : list string) :
  let index := fromEntries (imap (λ index key, (key, index)) (Set_spread keys)) in
  let size := length (Set_spread keys) in
  (∀ key, key ∈ keys → ∃ i, index !! key = Some i ∧ (i < size)%nat) ∧
  (∀ key1 key2 i, index !! key1 = Some i → index !! key2 = Some i → key1 = key2) ∧
  (∀ i, (i < size)%nat → ∃ key, key ∈ keys ∧ index !! key = Some i) ∧
  (∀ key, key ∉ keys → index !! key = None) ∧
  (∀ key rest, keys = key :: rest → index !! key = Some 0%nat).
Proof.
  intros index size. subst index size.
  pose proof (NoDup_Set_spread keys) as Hnd.
  split; [|split; [|split; [|split]]].
  - intros key [i Hi]%elem_of_Set_spread%list_elem_of_lookup.
    exists i. split; [by apply indexed_lookup | by eapply lookup_lt_Some].
  - intros key1 key2 i H1%indexed_lookup H2%indexed_lookup; congruence.
  - intros i [key Hkey]%lookup_lt_is_Some. exists key. split.
    + by eapply elem_of_Set_spread, list_elem_of_lookup_2.
    + by apply indexed_lookup.
  - intros key Hout.
    destruct (fromEntries _ !! key) as [i|] eqn:H; [|done].
    apply indexed_lookup in H; [|done].
    destruct Hout. by eapply elem_of_Set_spread, list_elem_of_lookup_2.
  - intros key rest ->. apply indexed_lookup; [done|]. apply Set_spread_head.
Qed.

(** X5.  In a context built by [makeContext] the category index map sends
    the category of every product of the catalog to an index below
    [numCategories]; two categories have the same index only if they are the
    same category; every index below [numCategories] is the index of the
    category of some product; a category that no product has is not a key;
    and the category of the first product has index 0.  The same holds of the
    color index map and [numColors]. *)
Theorem makeContext_index_maps products' users' context :
  makeContext products' users' = Ok context →
  (∀ product, product ∈ products' →
     ∃ i j, categoriesIndex context !! category product = Some i ∧
            colorsIndex context !! color product = Some j ∧
            (i < numCategories context)%nat ∧ (j < numColors context)%nat) ∧
  (∀ key1 key2 i,
     (categoriesIndex context !! key1 = Some i →
      categoriesIndex context !! key2 = Some i → key1 = key2) ∧
     (colorsIndex context !! key1 = Some i →
      colorsIndex context !! key2 = Some i → key1 = key2)) ∧
  (∀ i, (i < numCategories context)%nat →
     ∃ product, product ∈ products' ∧
                categoriesIndex context !! category product = Some i) ∧
  (∀ j, (j < numColors context)%nat →
     ∃ product, product ∈ products' ∧
                colorsIndex context !! color product = Some j) ∧
  (∀ key, (key ∉ map category products' → categoriesIndex context !! key = None) ∧
          (key ∉ map color products' → colorsIndex context !! key = None)) ∧
  (∀ product rest, products' = product :: rest →
     categoriesIndex context !! category product = Some 0%nat ∧
     colorsIndex context !! color product = Some 0%nat).
Proof.
  intros H. split; [intros product; by apply (makeContext_index_bounds _ users')|].
  apply makeContext_Ok_inv in H
    as (_ & _ & _ & _ & _ & _ & -> & -> & -> & -> & _).
  destruct (index_map_spec (map category products'))
    as (_ & Hcat_inj & Hcat_surj & Hcat_none & Hcat_first).
  destruct (index_map_spec (map color products'))
    as (_ & Hcol_inj & Hcol_surj & Hcol_none & Hcol_first).
  split; [intros key1 key2 i; split; [apply Hcat_inj | apply Hcol_inj]|].
  split.
  { intros i Hi. destruct (Hcat_surj i Hi) as (key & Hkey & Hlookup).
    apply list_elem_of_In, in_map_iff in Hkey as (product & <- & Hin).
    exists product. split; [by apply list_elem_of_In | done]. }
  split.
  { intros j Hj. destruct (Hcol_surj j Hj) as (key & Hkey & Hlookup).
    apply list_elem_of_In, in_map_iff in Hkey as (product & <- & Hin).
    exists product. split; [by apply list_elem_of_In | done]. }
  split; [intros key; split; [apply Hcat_none | apply Hcol_none]|].
  intros product rest ->. split; [by eapply Hcat_first | by eapply Hcol_first].
Qed.

Lemma makeContext_index_maps_witness :
  (∀ product, product ∈ catalog →
     ∃ i j, categoriesIndex shop !! category product = Some i ∧
            colorsIndex shop !! color product = Some j ∧
            (i < numCategories shop)%nat ∧ (j < numColors shop)%nat) ∧
  (∀ key1 key2 i,
     (categoriesIndex shop !! key1 = Some i →
      categoriesIndex shop !! key2 = Some i → key1 = key2) ∧
     (colorsIndex shop !! key1 = Some i →
      colorsIndex shop !! key2 = Some i → key1 = key2)) ∧
  (∀ i, (i < numCategories shop)%nat →
     ∃ product, product ∈ catalog ∧
                categoriesIndex shop !! category product = Some i) ∧
  (∀ j, (j < numColors shop)%nat →
     ∃ product, product ∈ catalog ∧
                colorsIndex shop !! color product = Some j) ∧
  (∀ key, (key ∉ map category catalog → categoriesIndex shop !! key = None) ∧
          (key ∉ map color catalog → colorsIndex shop !! key = None)) ∧
  (∀ product rest, catalog = product :: rest →
     categoriesIndex shop !! category product = Some 0%nat ∧
     colorsIndex shop !! color product = Some 0%nat).
Proof.
  apply (makeContext_index_maps catalog [rafael; ana] shop).
  vm_compute. reflexivity.
Defined.

(** ** The bounds of the context *)

Lemma leb_refl a : is_nan a = false → leb a a = true.
Proof. destruct a; try done. intros _. by apply bool_decide_eq_true_2. Qed.

Lemma leb_total a b :
  is_nan a = false → is_nan b = false → leb a b = true ∨ leb b a = true.
Proof.
  destruct a as [x| | |], b as [y| | |]; try done; auto. intros _ _. simpl.
  rewrite !bool_decide_eq_true. destruct (Qclt_le_dec x y) as [?%Qclt_le_weak|?]; auto.
Qed.

Lemma leb_trans a b c : leb a b = true → leb b c = true → leb a c = true.
Proof.
  destruct a as [x| | |], b as [y| | |], c as [z| | |]; try done. simpl.
  rewrite !bool_decide_eq_true. apply Qcle_trans.
Qed.

Lemma leb_not_nan a b : leb a b = true → is_nan a = false ∧ is_nan b = false.
Proof. by destruct a, b. Qed.

Lemma min2_spec a b :
  is_nan a = false → is_nan b = false →
  (min2 a b = a ∨ min2 a b = b) ∧
  leb (min2 a b) a = true ∧ leb (min2 a b) b = true.
Proof.
  intros Ha Hb. unfold min2. rewrite Ha, Hb. simpl.
  destruct (leb a b) eqn:Hab.
  - split; [by left|]. split; [by apply leb_refl | done].
  - destruct (leb_total a b Ha Hb) as [?|Hba]; [congruence|].
    split; [by right|]. split; [done | by apply leb_refl].
Qed.

Lemma max2_spec a b :
  is_nan a = false → is_nan b = false →
  (max2 a b = a ∨ max2 a b = b) ∧
  leb a (max2 a b) = true ∧ leb b (max2 a b) = true.
Proof.
  intros Ha Hb. unfold max2. rewrite Ha, Hb. simpl.
  destruct (leb a b) eqn:Hab.
  - split; [by right|]. split; [done | by apply leb_refl].
  - destruct (leb_total a b Ha Hb) as [?|Hba]; [congruence|].
    split; [by left|]. split; [by apply leb_refl | done].
Qed.

Lemma foldl_min2_spec (xs : list number) (acc : number) :
  is_nan acc = false → Forall (λ x, is_nan x = false) xs →
  (foldl min2 acc xs = acc ∨ foldl min2 acc xs ∈ xs) ∧
  leb (foldl min2 acc xs) acc = true ∧
  Forall (λ x, leb (foldl min2 acc xs) x = true) xs.
Proof.
  intros Hacc Hxs. revert acc Hacc.
  induction Hxs as [|x xs Hx _ IH]; intros acc Hacc; simpl.
  - split; [by left|]. split; [by apply leb_refl | constructor].
  - destruct (min2_spec acc x Hacc Hx) as (Hor & Hle_acc & Hle_x).
    destruct (IH (min2 acc x)) as (IHor & IHle & IHall).
    { by destruct Hor as [-> | ->]. }
    split; [|split].
    + destruct IHor as [->|?]; [|right; by right].
      destruct Hor as [-> | ->]; [by left | right; left].
    + by eapply leb_trans.
    + constructor; [by eapply leb_trans | done].
Qed.

Lemma foldl_max2_spec (xs : list number) (acc : number) :
  is_nan acc = false → Forall (λ x, is_nan x = false) xs →
  (foldl max2 acc xs = acc ∨ foldl max2 acc xs ∈ xs) ∧
  leb acc (foldl max2 acc xs) = true ∧
  Forall (λ x, leb x (foldl max2 acc xs) = true) xs.
Proof.
  intros Hacc Hxs. revert acc Hacc.
  induction Hxs as [|x xs Hx _ IH]; intros acc Hacc; simpl.
  - split; [by left|]. split; [by apply leb_refl | constructor].
  - destruct (max2_spec acc x Hacc Hx) as (Hor & Hle_acc & Hle_x).
    destruct (IH (max2 acc x)) as (IHor & IHle & IHall).
    { by destruct Hor as [-> | ->]. }
    split; [|split].
    + destruct IHor as [->|?]; [|right; by right].
      destruct Hor as [-> | ->]; [by left | right; left].
    + by eapply leb_trans.
    + constructor; [by eapply leb_trans | done].
Qed.

(** [Math.min] and [Math.max] of at least one number, none of them NaN. *)
Lemma Math_min_spec (xs : list number) :
  xs ≠ [] → Forall (λ x, is_nan x = false) xs →
  Math_min xs ∈ xs ∧ Forall (λ x, leb (Math_min xs) x = true) xs.
Proof.
  intros Hne Hxs. destruct xs as [|x xs]; [done|].
  apply Forall_cons in Hxs as [Hx Hxs].
  unfold Math_min. simpl.
  assert (min2 PosInf x = x) as -> by by destruct x.
  destruct (foldl_min2_spec xs x Hx Hxs) as (Hor & Hle & Hall).
  split; [destruct Hor as [->|?]; [left | by right] | by constructor].
Qed.

Lemma Math_max_spec (xs : list number) :
  xs ≠ [] → Forall (λ x, is_nan x = false) xs →
  Math_max xs ∈ xs ∧ Forall (λ x, leb x (Math_max xs) = true) xs.
Proof.
  intros Hne Hxs. destruct xs as [|x xs]; [done|].
  apply Forall_cons in Hxs as [Hx Hxs].
  unfold Math_max. simpl.
  assert (max2 NegInf x = x) as -> by by destruct x.
  destruct (foldl_max2_spec xs x Hx Hxs) as (Hor & Hle & Hall).
  split; [destruct Hor as [->|?]; [left | by right] | by constructor].
Qed.

(** One NaN among the arguments makes the result NaN. *)
Lemma Math_min_max_nan (xs : list number) :
  NaN ∈ xs → Math_min xs = NaN ∧ Math_max xs = NaN.
Proof.
  unfold Math_min, Math_max. generalize PosInf NegInf.
  induction xs as [|x xs IH]; intros lo hi Hin; [by apply elem_of_nil in Hin|].
  simpl. apply elem_of_cons in Hin as [<-|Hin]; [|by apply IH].
  assert (min2 lo NaN = NaN) as -> by (unfold min2; by rewrite orb_true_r).
  assert (max2 hi NaN = NaN) as -> by (unfold max2; by rewrite orb_true_r).
  clear. split; induction xs as [|x xs IH]; done.
Qed.

Lemma bounds_of {A} (f : A → number) (l : list A) :
  l ≠ [] → Forall (λ x, is_nan (f x) = false) l →
  (∃ lo hi, lo ∈ l ∧ hi ∈ l ∧
     Math_min (map f l) = f lo ∧ Math_max (map f l) = f hi) ∧
  (∀ x, x ∈ l → leb (Math_min (map f l)) (f x) = true ∧
                leb (f x) (Math_max (map f l)) = true).
Proof.
  intros Hne Hall.
  assert (map f l ≠ []) as Hne' by by destruct l.
  assert (Forall (λ x, is_nan x = false) (map f l)) as Hall'.
  { apply Forall_forall. intros y (x & -> & Hx)%list_elem_of_fmap.
    by apply (proj1 (Forall_forall _ _) Hall). }
  destruct (Math_min_spec _ Hne' Hall') as [Hmin_in Hmin].
  destruct (Math_max_spec _ Hne' Hall') as [Hmax_in Hmax].
  split.
  - apply list_elem_of_fmap in Hmin_in as (lo & Hlo & ?).
    apply list_elem_of_fmap in Hmax_in as (hi & Hhi & ?).
    by exists lo, hi.
  - intros x Hx. rewrite Forall_forall in Hmin, Hmax.
    assert (f x ∈ map f l) as Hfx by (apply list_elem_of_fmap; eauto).
    split; [by apply Hmin | by apply Hmax].
Qed.

(** X7.  In a context built by [makeContext] from at least one user, none
    of NaN age, the two age bounds are the ages of two of the users and the
    age of every user lies between them; likewise the two price bounds are
    the prices of two products of a catalog that is not empty and has no NaN
    price.  A single NaN age makes both age bounds NaN, and a single NaN price
    both price bounds. *)
Theorem makeContext_bounds products' users' context :
  makeContext products' users' = Ok context →
  (users' ≠ [] → Forall (λ user, is_nan (age user) = false) users' →
     (∃ youngest oldest, youngest ∈ users' ∧ oldest ∈ users' ∧
        minAge context = age youngest ∧ maxAge context = age oldest) ∧
     (∀ user, user ∈ users' →
        leb (minAge context) (age user) = true ∧
        leb (age user) (maxAge context) = true)) ∧
  (products' ≠ [] → Forall (λ product, is_nan (price product) = false) products' →
     (∃ cheapest dearest, cheapest ∈ products' ∧ dearest ∈ products' ∧
        minPrice context = price cheapest ∧ maxPrice context = price dearest) ∧
     (∀ product, product ∈ products' →
        leb (minPrice context) (price product) = true ∧
        leb (price product) (maxPrice context) = true)) ∧
  ((∃ user, user ∈ users' ∧ age user = NaN) →
     minAge context = NaN ∧ maxAge context = NaN) ∧
  ((∃ product, product ∈ products' ∧ price product = NaN) →
     minPrice context = NaN ∧ maxPrice context = NaN).
Proof.
  intros (_ & _ & -> & -> & -> & -> & _)%makeContext_Ok_inv.
  split; [apply bounds_of|]. split; [apply bounds_of|]. split.
  - intros (user & Hin & Hnan). apply Math_min_max_nan.
    rewrite <-Hnan. apply list_elem_of_fmap. eauto.
  - intros (product & Hin & Hnan). apply Math_min_max_nan.
    rewrite <-Hnan. apply list_elem_of_fmap. eauto.
Qed.

Lemma makeContext_bounds_witness :
  (∃ youngest oldest, youngest ∈ [rafael; ana] ∧ oldest ∈ [rafael; ana] ∧
     minAge shop = age youngest ∧ maxAge shop = age oldest) ∧
  (∃ cheapest dearest, cheapest ∈ catalog ∧ dearest ∈ catalog ∧
     minPrice shop = price cheapest ∧ maxPrice shop = price dearest).
Proof.
  destruct (makeContext_bounds catalog [rafael; ana] shop) as (Hages & Hprices & _).
  - vm_compute. reflexivity.
  - split.
    + apply Hages; [done|]. by repeat constructor.
    + apply Hprices; [done|]. by repeat constructor.
Defined.

(** ** The stub worker's training run *)

(** With the shop's users the run returns: two messages are posted and the
    last two are left to the timer.  With a user who has bought nothing it
    throws after the first message. *)
Example trainModel_shop :
  let result := StubWorker.trainModel [rafael; ana] catalog freshWorker in
  result.2 = Ok tt ∧
  posted result.1 = [progressUpdate 50; trainingLog 1 1 1] ∧
  timers result.1 = [(1000%nat, [progressUpdate 100; trainingComplete])].
Proof. vm_compute. done. Qed.

Example trainModel_crowd :
  let result := StubWorker.trainModel [rafael; newcomer; ana] catalog freshWorker in
  result.2 = Throw TypeError ∧
  posted result.1 = [progressUpdate 50] ∧
  timers result.1 = [] ∧
  fst <$> _globalCtx result.1 = Some crowd.
Proof. vm_compute. done. Qed.

Lemma productVectorsOf_catalog products' users' context :
  makeContext products' users' = Ok context →
  (2 ≤ numCategories context)%nat → (2 ≤ numColors context)%nat →
  ∃ productVectors,
    productVectorsOf context products' = Ok productVectors ∧
    Forall2 (λ product pv,
        ProductVector.name pv = name product ∧
        ProductVector.meta pv = product ∧
        encodeProduct product context = Ok (ProductVector.vector pv) ∧
        length (ProductVector.vector pv) = dimensions context)
      products' productVectors.
Proof.
  intros H Hcat Hcol. apply makeContext_encodes_catalog in H as Henc.
  apply makeContext_Ok_inv in H as (Hps & _ & _ & _ & _ & _ & _ & _ & _ & _ & Hdim).
  rewrite Hps in Henc. unfold productVectorsOf.
  match goal with |- context [mapT ?f products'] =>
    destruct (mapT_Ok f products') as (pvs & Hpvs & Hall) end.
  - eapply Forall_impl; [exact Henc|]. simpl. intros product Hproduct.
    destruct (encodeProduct_encodable _ _ Hproduct Hcat Hcol) as [t ->].
    simpl. eauto.
  - exists pvs. split; [done|].
    eapply Forall2_impl; [exact Hall|]. simpl.
    intros product pv (t & Ht & [= <-])%bind_Ok_inv. simpl.
    do 3 (split; [done|]). unfold tf.dataSync1.
    apply encodeProduct_Ok_inv in Ht as [_ Hlen]. by rewrite Hlen, Hdim.
Qed.

(** X12.  Take a fetched catalog with at least two categories and two
    colors and at least one user.  A run of the stub worker's [trainModel]
    then always gets as far as assigning [_globalCtx]: it posts the progress
    50, every product of the fetched catalog is encoded as a vector of
    [dimensions] entries, and the context with these vectors replaces
    [_globalCtx].  When [createTrainingData] returns, the run returns, having
    posted the training log after the progress 50 and left the progress 100
    and the completion to a timer of 1000 ms.  When [createTrainingData]
    throws, the run throws the same error with only the progress 50 posted
    and no timer set, and [_globalCtx] already replaced. *)
Theorem Stub_trainModel_run users' fetched context w :
  makeContext fetched users' = Ok context →
  users' ≠ [] →
  (2 ≤ numCategories context)%nat → (2 ≤ numColors context)%nat →
  ∃ productVectors,
    Forall2 (λ product pv,
        ProductVector.name pv = name product ∧
        ProductVector.meta pv = product ∧
        encodeProduct product context = Ok (ProductVector.vector pv) ∧
        length (ProductVector.vector pv) = dimensions context)
      fetched productVectors ∧
    _globalCtx (StubWorker.trainModel users' fetched w).1 =
      Some (context, productVectors) ∧
    match Stub.createTrainingData context with
    | Ok _ =>
        (StubWorker.trainModel users' fetched w).2 = Ok tt ∧
        posted (StubWorker.trainModel users' fetched w).1 =
          posted w ++ [progressUpdate 50; trainingLog 1 1 1] ∧
        timers (StubWorker.trainModel users' fetched w).1 =
          timers w ++ [(1000%nat, [progressUpdate 100; trainingComplete])]
    | Throw e =>
        (StubWorker.trainModel users' fetched w).2 = Throw e ∧
        posted (StubWorker.trainModel users' fetched w).1 =
          posted w ++ [progressUpdate 50] ∧
        timers (StubWorker.trainModel users' fetched w).1 = timers w
    end.
Proof.
  intros Hctx _ Hcat Hcol.
  destruct (productVectorsOf_catalog _ _ _ Hctx Hcat Hcol) as (pvs & Hpvs & Hall).
  exists pvs. split; [done|].
  unfold StubWorker.trainModel, mbind, run_bind, lift, postMessage, assignGlobalCtx,
    setTimeout.
  rewrite Hctx, Hpvs.
  destruct (Stub.createTrainingData context) as [td|e]; simpl.
  - split; [done|]. split; [done|]. split; [by rewrite <-app_assoc | done].
  - done.
Qed.

Lemma Stub_trainModel_run_witness :
  ∃ productVectors,
    Forall2 (λ product pv,
        ProductVector.name pv = name product ∧
        ProductVector.meta pv = product ∧
        encodeProduct product crowd = Ok (ProductVector.vector pv) ∧
        length (ProductVector.vector pv) = dimensions crowd)
      catalog productVectors ∧
    _globalCtx (StubWorker.trainModel [rafael; newcomer; ana] catalog freshWorker).1 =
      Some (crowd, productVectors) ∧
    match Stub.createTrainingData crowd with
    | Ok _ =>
        (StubWorker.trainModel [rafael; newcomer; ana] catalog freshWorker).2 = Ok tt ∧
        posted (StubWorker.trainModel [rafael; newcomer; ana] catalog freshWorker).1 =
          posted freshWorker ++ [progressUpdate 50; trainingLog 1 1 1] ∧
        timers (StubWorker.trainModel [rafael; newcomer; ana] catalog freshWorker).1 =
          timers freshWorker ++ [(1000%nat, [progressUpdate 100; trainingComplete])]
    | Throw e =>
        (StubWorker.trainModel [rafael; newcomer; ana] catalog freshWorker).2 = Throw e ∧
        posted (StubWorker.trainModel [rafael; newcomer; ana] catalog freshWorker).1 =
          posted freshWorker ++ [progressUpdate 50] ∧
        timers (StubWorker.trainModel [rafael; newcomer; ana] catalog freshWorker).1 =
          timers freshWorker
    end.
Proof.
  apply (Stub_trainModel_run [rafael; newcomer; ana] catalog crowd freshWorker).
  - vm_compute. reflexivity.
  - done.
  - vm_compute. lia.
  - vm_compute. lia.
Defined.

(** ** What the users do not change *)

Lemma length_Set_spread (xs : list string) :
  length (Set_spread xs) = size (list_to_set xs : gset string).
Proof.
  rewrite <-(size_list_to_set (C:=gset string) (Set_spread xs))
    by apply NoDup_Set_spread.
  f_equal. apply set_eq. intros x.
  by rewrite !elem_of_list_to_set, elem_of_Set_spread.
Qed.

Lemma length_Set_spread_le (xs : list string) :
  (length (Set_spread xs) ≤ length xs)%nat.
Proof.
  apply submseteq_length, NoDup_submseteq; [apply NoDup_Set_spread|].
  intros x. by rewrite elem_of_Set_spread.
Qed.

(** X13.  In a context built by [makeContext], [numCategories] and
    [numColors] are the numbers of distinct categories and of distinct colors
    of the catalog, at most the number of products and at least 1 when there
    is a product, and the context keeps the two lists it was built from.  The
    price bounds, the two index maps, their sizes and the dimension depend on
    the catalog only: two contexts of one catalog agree on them whatever the
    users, so every product is encoded at the same positions. *)
Theorem makeContext_catalog_only products' users1 users2 context1 context2 :
  makeContext products' users1 = Ok context1 →
  makeContext products' users2 = Ok context2 →
  products context1 = products' ∧ users context1 = users1 ∧
  numCategories context1 = size (list_to_set (map category products') : gset string) ∧
  numColors context1 = size (list_to_set (map color products') : gset string) ∧
  (numCategories context1 ≤ length products')%nat ∧
  (numColors context1 ≤ length products')%nat ∧
  (products' ≠ [] → (1 ≤ numCategories context1)%nat ∧ (1 ≤ numColors context1)%nat) ∧
  minPrice context1 = minPrice context2 ∧ maxPrice context1 = maxPrice context2 ∧
  categoriesIndex context1 = categoriesIndex context2 ∧
  colorsIndex context1 = colorsIndex context2 ∧
  numCategories context1 = numCategories context2 ∧
  numColors context1 = numColors context2 ∧
  dimensions context1 = dimensions context2.
Proof.
  intros H1 H2.
  apply makeContext_Ok_inv in H1
    as (Hps & Hus & _ & _ & Hmin1 & Hmax1 & Hcat1 & Hcol1 & Hncat1 & Hncol1 & Hdim1).
  apply makeContext_Ok_inv in H2
    as (_ & _ & _ & _ & Hmin2 & Hmax2 & Hcat2 & Hcol2 & Hncat2 & Hncol2 & Hdim2).
  unfold consistent in *.
  do 2 (split; [done|]).
  split; [by rewrite Hncat1, length_Set_spread|].
  split; [by rewrite Hncol1, length_Set_spread|].
  split.
  { rewrite Hncat1. etrans; [apply length_Set_spread_le|]. by rewrite length_map. }
  split.
  { rewrite Hncol1. etrans; [apply length_Set_spread_le|]. by rewrite length_map. }
  split.
  { intros Hne. destruct products' as [|product rest]; [done|].
    rewrite Hncat1, Hncol1. split.
    - pose proof (Set_spread_head (category product) (map category rest)) as Hhead.
      apply lookup_lt_Some in Hhead. simpl in *. lia.
    - pose proof (Set_spread_head (color product) (map color rest)) as Hhead.
      apply lookup_lt_Some in Hhead. simpl in *. lia. }
  repeat split; congruence.
Qed.

Lemma makeContext_catalog_only_witness :
  products shop = catalog ∧ users shop = [rafael; ana] ∧
  numCategories shop = size (list_to_set (map category catalog) : gset string) ∧
  numColors shop = size (list_to_set (map color catalog) : gset string) ∧
  (numCategories shop ≤ length catalog)%nat ∧
  (numColors shop ≤ length catalog)%nat ∧
  (catalog ≠ [] → (1 ≤ numCategories shop)%nat ∧ (1 ≤ numColors shop)%nat) ∧
  minPrice shop = minPrice crowd ∧ maxPrice shop = maxPrice crowd ∧
  categoriesIndex shop = categoriesIndex crowd ∧
  colorsIndex shop = colorsIndex crowd ∧
  numCategories shop = numCategories crowd ∧
  numColors shop = numColors crowd ∧
  dimensions shop = dimensions crowd.
Proof.
  apply (makeContext_catalog_only catalog [rafael; ana] [rafael; newcomer; ana]
           shop crowd); vm_compute; reflexivity.
Defined.

(** ** From the catalog to the training set *)

Lemma makeContext_encodable products' users' context product :
  makeContext products' users' = Ok context →
  encodable context product ↔ stocked products' product.
Proof.
  intros H.
  apply makeContext_Ok_inv in H as (_ & _ & _ & _ & _ & _ & Hcat & Hcol & _).
  pose proof (index_map_spec (map category products')) as Hcats.
  pose proof (index_map_spec (map color products')) as Hcols.
  cbv zeta in Hcats, Hcols. rewrite <-Hcat in Hcats. rewrite <-Hcol in Hcols.
  destruct Hcats as (Hcat_in & _ & _ & Hcat_out & _).
  destruct Hcols as (Hcol_in & _ & _ & Hcol_out & _).
  unfold encodable, stocked. split.
  - intros [Hc Hk]. split.
    + destruct (decide (category product ∈ map category products')) as [|Hout]; [done|].
      rewrite (Hcat_out _ Hout) in Hc. by apply is_Some_None in Hc.
    + destruct (decide (color product ∈ map color products')) as [|Hout]; [done|].
      rewrite (Hcol_out _ Hout) in Hk. by apply is_Some_None in Hk.
  - intros [Hc Hk]. split.
    + destruct (Hcat_in _ Hc) as (i & -> & _). eauto.
    + destruct (Hcol_in _ Hk) as (j & -> & _). eauto.
Qed.

(** X15.  Building the context from a catalog and then the training set
    from the context (a catalog with at least two categories and two colors,
    the depths the tensor library accepts): with at least one user who has
    bought something, the real-training worker's [createTrainingData] returns
    exactly when the category and the color of every purchase of every user
    are the category and the color of products of the catalog; with at least
    one user, the stub worker's returns exactly when moreover every user has
    bought something.  A purchase need not be a product of the catalog, and
    its name and price play no part. *)
Theorem training_after_makeContext products' users' context :
  makeContext products' users' = Ok context →
  (2 ≤ numCategories context)%nat → (2 ≤ numColors context)%nat →
  (buyers users' ≠ [] →
     ((∃ td, Train.createTrainingData context = Ok td) ↔
        ∀ user purchase, user ∈ users' → purchase ∈ purchases user →
                         stocked products' purchase)) ∧
  (users' ≠ [] →
     ((∃ td, Stub.createTrainingData context = Ok td) ↔
        ∀ user, user ∈ users' →
          purchases user ≠ [] ∧
          ∀ purchase, purchase ∈ purchases user → stocked products' purchase)).
Proof.
  intros H Hcat Hcol.
  pose proof (makeContext_encodes_catalog _ _ _ H) as Hps.
  assert (∀ product, encodable context product ↔ stocked products' product) as Henc
    by (intros product; by eapply makeContext_encodable).
  apply makeContext_Ok_inv in H
    as (Hproducts & Husers & _ & _ & _ & _ & _ & _ & Hncat & _ & Hdim).
  assert (products context ≠ []) as Hpne.
  { rewrite Hproducts. intros ->. rewrite Hncat in Hcat. simpl in Hcat. lia. }
  split.
  - intros Hbuyers. unfold Train.createTrainingData. rewrite Husers.
    fold (buyers users'). rewrite trainingLoop_returns. split.
    + intros (_ & _ & _ & _ & _ & _ & Hall). intros user purchase Hu Hp.
      apply Henc. rewrite Forall_forall in Hall.
      assert (user ∈ buyers users') as Hb.
      { apply buyers_spec. split; [done|]. intros Hnil. rewrite Hnil in Hp.
        by apply elem_of_nil in Hp. }
      destruct (Hall user Hb) as [_ Hus]. rewrite Forall_forall in Hus.
      by apply Hus.
    + intros Hall. do 6 (split; [done|]).
      apply Forall_forall. intros user [Hu Hbought]%buyers_spec.
      split; [done|].
      apply Forall_forall. intros purchase Hp. apply Henc. by eapply Hall.
  - intros Hne. unfold Stub.createTrainingData. rewrite Husers.
    rewrite trainingLoop_returns. split.
    + intros (_ & _ & _ & _ & _ & _ & Hall). intros user Hu.
      rewrite Forall_forall in Hall. destruct (Hall user Hu) as [Hbought Hus].
      split; [done|]. intros purchase Hp. apply Henc.
      rewrite Forall_forall in Hus. by apply Hus.
    + intros Hall. do 6 (split; [done|]).
      apply Forall_forall. intros user Hu. destruct (Hall user Hu) as [Hbought Hus].
      split; [done|]. apply Forall_forall. intros purchase Hp. apply Henc.
      by apply Hus.
Qed.

Lemma training_after_makeContext_witness :
  (buyers [rafael; clara] ≠ [] →
     ((∃ td, Train.createTrainingData market = Ok td) ↔
        ∀ user purchase, user ∈ [rafael; clara] → purchase ∈ purchases user →
                         stocked catalog purchase)) ∧
  ([rafael; clara] ≠ [] →
     ((∃ td, Stub.createTrainingData market = Ok td) ↔
        ∀ user, user ∈ [rafael; clara] →
          purchases user ≠ [] ∧
          ∀ purchase, purchase ∈ purchases user → stocked catalog purchase)).
Proof.
  apply (training_after_makeContext catalog [rafael; clara] market).
  - vm_compute. reflexivity.
  - vm_compute. lia.
  - vm_compute. lia.
Defined.


(** ** The ages recorded for each product *)

Lemma add_0_r (a : number) : (a + Fin 0)%num = a.
Proof. destruct a as [x| | |]; try done. simpl. f_equal. apply Qcplus_0_r. Qed.

Lemma add_assoc (a b c : number) : (a + (b + c))%num = (a + b + c)%num.
Proof.
  destruct a as [x| | |], b as [y| | |], c as [z| | |]; simpl; try done.
  f_equal. apply Qcplus_assoc.
Qed.

Lemma add_0_l (a : number) : (Fin 0 + a)%num = a.
Proof. destruct a as [x| | |]; try done. simpl. f_equal. apply Qcplus_0_l. Qed.

Lemma total_app (l1 l2 : list number) :
  total (l1 ++ l2) = (total l1 + total l2)%num.
Proof.
  induction l1 as [|a l1 IH].
  - change (total l2 = (Fin 0 + total l2)%num). by rewrite add_0_l.
  - change (a + total (l1 ++ l2) = a + total l1 + total l2)%num.
    by rewrite IH, add_assoc.
Qed.

Lemma total_finite (l : list number) :
  Forall (λ a, is_finite a = true) l → ∃ s, total l = Fin s.
Proof.
  induction 1 as [|a l Ha _ [s Hs]]; [by exists 0|].
  destruct a as [x| | |]; try done. exists (x + s).
  unfold total in *. simpl. by rewrite Hs.
Qed.

Lemma total_singleton (a : number) : total [a] = a.
Proof. change (total [a]) with (a + Fin 0)%num. apply add_0_r. Qed.

Lemma whole_finite (a : number) : whole a → is_finite a = true.
Proof. by intros (n & _ & ->). Qed.

Lemma ageTotals_log users :
  ageTotals users = foldl recordPurchase (∅, ∅) (purchaseLog users).
Proof.
  unfold ageTotals, purchaseLog.
  generalize (∅ : gmap string property, ∅ : gmap string property).
  induction users as [|user users IH]; intros totals; [done|].
  rewrite bind_cons, foldl_app. simpl. rewrite IH. f_equal.
  rewrite bind_singleton_map. clear.
  revert totals. induction (purchases user) as [|purchase ps IH]; intros totals; [done|].
  simpl. rewrite IH. by destruct totals.
Qed.

Lemma num_of_nat_0 : num_of_nat 0 = Fin 0.
Proof. unfold num_of_nat. change (Z.of_nat 0) with 0%Z. by rewrite Z2Qc_inj_0. Qed.

Lemma num_of_nat_S (n : nat) : (num_of_nat n + Fin 1)%num = num_of_nat (S n).
Proof.
  unfold num_of_nat. simpl add. f_equal.
  by rewrite Nat2Z.inj_succ, <-Z.add_1_r, Z2Qc_inj_add, Z2Qc_inj_1.
Qed.

Lemma truthy_num_of_nat (n : nat) : n ≠ 0%nat → truthy (num_of_nat n) = true.
Proof.
  intros Hn. unfold num_of_nat. simpl. apply bool_decide_eq_true_2.
  rewrite <-Z2Qc_inj_0. intros H%Z2Qc_inj. lia.
Qed.

(** [(s || 0) + a] is [s + a] for a finite [s]: zero gives way to zero. *)
Lemma or_zero_plus (s : Qc) (a : number) :
  plus (or_zero (Num (Fin s))) a = Num (Fin s + a)%num.
Proof.
  unfold or_zero. simpl. case_bool_decide as Hs; [done|].
  assert (s = 0) as -> by (by destruct (decide (s = 0))). done.
Qed.

Lemma lookup_assign_ne obj key key' value :
  key' ≠ key → assign obj key' value !! key = obj !! key.
Proof.
  intros Hne. unfold assign. case_bool_decide; [done|].
  by rewrite lookup_insert_ne.
Qed.

Lemma lookup_assign_eq obj key value :
  key ≠ "__proto__" → assign obj key value !! key = Some value.
Proof.
  intros Hne. unfold assign. rewrite bool_decide_eq_false_2 by done.
  apply lookup_insert_eq.
Qed.

Lemma inherited_proto key : inherited key = false → key ≠ "__proto__".
Proof. by intros H ->. Qed.

(** Under a name that every object inherits, nothing but what is not a
    number is ever read. *)
Lemma recordPurchase_inherited (log : list (number * string)) (key : string) :
  inherited key = true →
  read (foldl recordPurchase (∅, ∅) log).1 key = Exotic ∧
  read (foldl recordPurchase (∅, ∅) log).2 key = Exotic.
Proof.
  intros Hkey.
  induction log as [|[a n] log [IH1 IH2]] using rev_ind.
  { unfold read. simpl. by rewrite lookup_empty, Hkey. }
  rewrite foldl_snoc.
  set (totals := foldl recordPurchase (∅, ∅) log) in *.
  unfold recordPurchase. cbn [fst snd].
  destruct (decide (n = key)) as [->|Hne].
  - rewrite IH1, IH2. cbn [or_zero truthy_property plus].
    unfold read, assign in *. case_bool_decide; [done|].
    by rewrite !lookup_insert_eq.
  - unfold read in *. by rewrite !lookup_assign_ne.
Qed.

(** The two objects after the purchases of a log, at a name of their own. *)
Lemma recordPurchase_log (log : list (number * string)) (key : string) :
  inherited key = false →
  let totals := foldl recordPurchase (∅, ∅) log in
  let ages := entry ← log; if decide (entry.2 = key) then [entry.1] else [] in
  (ages = [] → totals.1 !! key = None ∧ totals.2 !! key = None) ∧
  (ages ≠ [] →
     totals.2 !! key = Some (Num (num_of_nat (length ages))) ∧
     (Forall (λ a, is_finite a = true) ages →
        totals.1 !! key = Some (Num (total ages)))).
Proof.
  intros Hkey. pose proof (inherited_proto _ Hkey) as Hproto.
  induction log as [|[a n] log IH] using rev_ind; [done|].
  cbv zeta in *. rewrite foldl_snoc, bind_app, bind_singleton.
  set (totals := foldl recordPurchase (∅, ∅) log) in *.
  set (ages := log ≫= _) in *.
  destruct IH as [IHnone IHsome].
  generalize dependent totals. intros totals IHnone IHsome.
  unfold recordPurchase. cbn [fst snd].
  destruct (decide (n = key)) as [->|Hne].
  - split; [by intros [_ [=]]%app_eq_nil|]. intros _.
    rewrite !lookup_assign_eq by done. unfold read. rewrite Hkey.
    destruct (decide (ages = [])) as [Hnil|Hsome].
    + destruct (IHnone Hnil) as [-> ->]. rewrite Hnil.
      cbn [or_zero truthy_property plus app length].
      split; [by rewrite <-num_of_nat_0, num_of_nat_S|].
      intros _. by rewrite add_0_l, total_singleton.
    + destruct (IHsome Hsome) as (-> & Hfinite).
      rewrite length_app, Nat.add_1_r. split.
      { unfold num_of_nat at 1. rewrite or_zero_plus.
        fold (num_of_nat (length ages)). by rewrite num_of_nat_S. }
      intros [Hages Ha]%Forall_app. rewrite (Hfinite Hages).
      destruct (total_finite _ Hages) as [s Hs].
      by rewrite total_app, Hs, or_zero_plus, total_singleton.
  - rewrite app_nil_r, !lookup_assign_ne by done. split; done.
Qed.

Lemma elem_of_agesOfBuyers users key a :
  a ∈ agesOfBuyers users key ↔
  ∃ user purchase, user ∈ users ∧ purchase ∈ purchases user ∧
                   name purchase = key ∧ age user = a.
Proof.
  unfold agesOfBuyers, purchaseLog. rewrite list_elem_of_bind. split.
  - intros ([a' n] & Ha & Hin). simpl in Ha.
    destruct (decide (n = key)) as [->|]; [|by apply elem_of_nil in Ha].
    apply list_elem_of_singleton in Ha as ->.
    apply list_elem_of_bind in Hin as (user & Hin & Huser).
    apply list_elem_of_bind in Hin as (purchase & [= -> ->]%list_elem_of_singleton & Hp).
    by exists user, purchase.
  - intros (user & purchase & Huser & Hp & <- & <-).
    exists (age user, name purchase). simpl. rewrite decide_True by done.
    split; [by apply list_elem_of_singleton|].
    apply list_elem_of_bind. exists user. split; [|done].
    apply list_elem_of_bind. exists purchase. split; [by apply list_elem_of_singleton | done].
Qed.


(** X8.  After the loops of [makeContext], the count read under a name of
    the object's own (one that no object inherits) is the number of
    purchases of that name over all users, a user who has bought it twice
    counting twice, and nothing is read under such a name when nobody has
    bought it; for ages in whole years the sum read is the sum of the ages of
    the buyers, one for each purchase.  Under a name that every object
    inherits, such as [toString], what is read from either object is never a
    number, whether the name has been bought or not. *)
Theorem ageTotals_records users key :
  (agesOfBuyers users key = [] ↔
     ∀ user purchase, user ∈ users → purchase ∈ purchases user →
                      name purchase ≠ key) ∧
  (inherited key = true →
     read (ageTotals users).1 key = Exotic ∧
     read (ageTotals users).2 key = Exotic) ∧
  (inherited key = false → agesOfBuyers users key = [] →
     read (ageTotals users).1 key = Undefined ∧
     read (ageTotals users).2 key = Undefined) ∧
  (inherited key = false → agesOfBuyers users key ≠ [] →
     (Z.of_nat (length (agesOfBuyers users key)) ≤ 2 ^ 32)%Z →
     read (ageTotals users).2 key =
       Num (num_of_nat (length (agesOfBuyers users key))) ∧
     (Forall whole (agesOfBuyers users key) →
        read (ageTotals users).1 key = Num (total (agesOfBuyers users key)))).
Proof.
  split; [|split; [|split]].
  - split.
    + intros Hnil user purchase Huser Hp Hname.
      assert (age user ∈ agesOfBuyers users key) as Hin
        by (apply elem_of_agesOfBuyers; eauto 6).
      rewrite Hnil in Hin. by apply elem_of_nil in Hin.
    + intros Hnone. destruct (agesOfBuyers users key) as [|a ages] eqn:Hages; [done|].
      assert (a ∈ agesOfBuyers users key) as Hin by (rewrite Hages; left).
      apply elem_of_agesOfBuyers in Hin as (user & purchase & ? & ? & ? & _).
      by destruct (Hnone user purchase).
  - intros Hkey. rewrite ageTotals_log. by apply recordPurchase_inherited.
  - intros Hkey Hnil. rewrite ageTotals_log.
    destruct (recordPurchase_log (purchaseLog users) key Hkey) as [Hnone _].
    destruct (Hnone Hnil) as [Hsums Hcounts].
    unfold read. by rewrite Hsums, Hcounts, Hkey.
  - intros Hkey Hbought _. rewrite ageTotals_log.
    destruct (recordPurchase_log (purchaseLog users) key Hkey) as [_ Hsome].
    destruct (Hsome Hbought) as [Hcounts Hsums].
    unfold read. rewrite Hcounts. split; [done|]. intros Hwhole.
    rewrite Hsums; [done|].
    eapply Forall_impl; [exact Hwhole|]. apply whole_finite.
Qed.

(** Bruno has bought a product named [toString]: its count is not a number,
    nor is it when nobody has bought such a product.  The cap has one buyer,
    aged 27, and the scarf none. *)
Example ageTotals_of_three :
  read (ageTotals [rafael; bruno; ana]).2 (name gadget) = Exotic ∧
  read (ageTotals [rafael; ana]).2 (name gadget) = Exotic ∧
  read (ageTotals [rafael; bruno; ana]).2 (name cap) = Num (Fin 1) ∧
  fraction (to_number (read (ageTotals [rafael; bruno; ana]).1 (name cap)))
    = Some (27 # 1)%Q ∧
  read (ageTotals [rafael; bruno; ana]).2 (name scarf) = Undefined.
Proof. vm_compute. done. Qed.

(** ** The purchaser age of a product *)

Lemma Qc_two_inv : 2 * / 2 = 1.
Proof. by apply Qcmult_inv_r. Qed.

Lemma Qc_inv_two : / 2 = Q2Qc (1 # 2).
Proof. apply Qc_is_canon. reflexivity. Qed.

Lemma Qc_half_sum (a b : Qc) : (a + b) / 2 - a = (b - a) / 2.
Proof.
  unfold Qcdiv, Qcminus. transitivity ((a + b) * / 2 + - (a * (2 * / 2))).
  - by rewrite Qc_two_inv, Qcmult_1_r.
  - ring.
Qed.

Lemma Qc_of_nat_S (n : nat) :
  Qc_of_Z (Z.of_nat (S n)) = 1 + Qc_of_Z (Z.of_nat n).
Proof.
  by rewrite Nat2Z.inj_succ, <-Z.add_1_l, Z2Qc_inj_add, Z2Qc_inj_1.
Qed.

Lemma Qc_of_nat_pos (n : nat) : n ≠ 0%nat → 0 < Qc_of_Z (Z.of_nat n).
Proof.
  intros Hn. rewrite <-Z2Qc_inj_0.
  apply (proj1 (Z2Qc_inj_lt 0 (Z.of_nat n))). lia.
Qed.

Lemma total_between (l : list number) (lo hi : Qc) :
  Forall (λ a, ∃ q, a = Fin q ∧ lo ≤ q ≤ hi) l →
  ∃ s, total l = Fin s ∧
       Qc_of_Z (Z.of_nat (length l)) * lo ≤ s ≤ Qc_of_Z (Z.of_nat (length l)) * hi.
Proof.
  induction 1 as [|a l (q & -> & Hqlo & Hqhi) _ (s & Hs & Hlo & Hhi)].
  - exists 0. split; [done|]. cbn [length]. change (Z.of_nat 0) with 0%Z.
    by rewrite Z2Qc_inj_0, !Qcmult_0_l.
  - exists (q + s). split.
    { change (total (Fin q :: l)) with (Fin q + total l)%num. by rewrite Hs. }
    cbn [length]. rewrite Qc_of_nat_S. split.
    + replace ((1 + Qc_of_Z (Z.of_nat (length l))) * lo)
        with (lo + Qc_of_Z (Z.of_nat (length l)) * lo) by ring.
      by apply Qcplus_le_compat.
    + replace ((1 + Qc_of_Z (Z.of_nat (length l))) * hi)
        with (hi + Qc_of_Z (Z.of_nat (length l)) * hi) by ring.
      by apply Qcplus_le_compat.
Qed.

Lemma mean_between (s lo hi n : Qc) :
  0 < n → n * lo ≤ s ≤ n * hi → lo ≤ s / n ≤ hi.
Proof.
  intros Hn [Hlo Hhi].
  assert (n ≠ 0) as Hne by (by apply not_eq_sym, Qclt_not_eq).
  assert (0 ≤ / n) as Hinv by (by apply Qclt_le_weak, Qcinv_pos).
  assert (∀ x, n * x * / n = x) as Hcancel.
  { intros x. transitivity (x * (n * / n)); [ring|].
    rewrite Qcmult_inv_r by done. ring. }
  unfold Qcdiv. split.
  - rewrite <-(Hcancel lo). by apply Qcmult_le_mono_nonneg_r.
  - rewrite <-(Hcancel hi). by apply Qcmult_le_mono_nonneg_r.
Qed.

Lemma finite_bounds {A} (f : A → number) (l : list A) :
  l ≠ [] → Forall (λ x, is_finite (f x) = true) l →
  ∃ lo hi, Math_min (map f l) = Fin lo ∧ Math_max (map f l) = Fin hi ∧ lo ≤ hi ∧
           ∀ x, x ∈ l → ∃ q, f x = Fin q ∧ lo ≤ q ≤ hi.
Proof.
  intros Hne Hfin.
  assert (∀ x, x ∈ l → ∃ q, f x = Fin q) as Hq.
  { intros x Hx. apply (proj1 (Forall_forall _ _) Hfin) in Hx.
    destruct (f x); [eauto | done..]. }
  destruct (bounds_of f l Hne) as [(xlo & xhi & Hxlo & Hxhi & Hmin & Hmax) Hall].
  { eapply Forall_impl; [exact Hfin|]. simpl. intros x. by destruct (f x). }
  destruct (Hq xlo Hxlo) as [lo Hlo], (Hq xhi Hxhi) as [hi Hhi].
  rewrite Hmin, Hmax, Hlo, Hhi in *. exists lo, hi.
  assert (∀ x, x ∈ l → ∃ q, f x = Fin q ∧ lo ≤ q ≤ hi) as Hin.
  { intros x Hx. destruct (Hq x Hx) as [q Hfx]. exists q. split; [done|].
    destruct (Hall x Hx) as [H1 H2]. rewrite Hfx in H1, H2. simpl in H1, H2.
    by rewrite !bool_decide_eq_true in H1, H2. }
  do 2 (split; [done|]). split; [|done].
  destruct (Hin xlo Hxlo) as (q & Hq' & _ & ?). congruence.
Qed.

Lemma normalize_in_unit (value min max : Qc) :
  min ≤ value ≤ max →
  ∃ r, normalize (Fin value) (Fin min) (Fin max) = Ok (Fin r) ∧ 0 ≤ r ≤ 1.
Proof.
  intros [Hlo Hhi]. destruct (decide (min = max)) as [<-|Hne].
  - assert (value = min) as -> by by apply Qcle_antisym.
    exists 0. by rewrite normalize_Fin_eq, Qcminus_diag.
  - exists ((value - min) / (max - min)). rewrite normalize_Fin_ne by done.
    split; [done|]. apply Qcdiv_unit_interval.
    + unfold Qcminus. by apply Qcle_minus_iff in Hlo.
    + unfold Qcminus. by apply Qcplus_le_mono_r.
    + assert (min < max) as Hlt.
      { destruct (Qcle_lt_or_eq min max) as [?|?]; [by etrans | done | done]. }
      unfold Qcminus. by apply Qclt_minus_iff in Hlt.
Qed.

Lemma normalize_midpoint (min max : Qc) :
  normalize (Fin ((min + max) / 2)) (Fin min) (Fin max) =
    Ok (Fin (if decide (min = max) then 0 else Q2Qc (1 # 2))).
Proof.
  destruct (decide (min = max)) as [<-|Hne].
  - rewrite normalize_Fin_eq, Qc_half_sum, Qcminus_diag. do 2 f_equal.
    unfold Qcdiv. ring.
  - rewrite normalize_Fin_ne, Qc_half_sum by done. do 2 f_equal.
    assert (max - min ≠ 0) as Hd by (intros H; apply Qcminus_eq_0 in H; done).
    unfold Qcdiv. transitivity (/ 2 * ((max - min) * / (max - min))); [ring|].
    rewrite Qcmult_inv_r by done. rewrite Qcmult_1_r. apply Qc_inv_two.
Qed.

Lemma normalize_NaN min max : normalize NaN min max = Ok NaN.
Proof.
  unfold normalize, div. rewrite or_else_not_zero by done. done.
Qed.

(** The normalised purchaser age that [makeContext] computes for a product
    with a name of the object's own, when the ages of the users are finite
    and lie between the two bounds. *)
Lemma purchaser_age_value users' (lo hi : Qc) product :
  inherited (name product) = false →
  lo ≤ hi →
  (∀ user, user ∈ users' → ∃ q, age user = Fin q ∧ lo ≤ q ≤ hi) →
  ∃ r, (purchaserAvgAge (ageTotals users').1 (ageTotals users').2
          (Fin ((lo + hi) / 2)) product
        ≫= λ avg, normalize avg (Fin lo) (Fin hi)) = Ok (Fin r) ∧
       0 ≤ r ≤ 1 ∧
       (agesOfBuyers users' (name product) = [] →
          r = if decide (lo = hi) then 0 else Q2Qc (1 # 2)).
Proof.
  intros Hname Hlohi Hages. unfold purchaserAvgAge, read. rewrite ageTotals_log.
  destruct (recordPurchase_log (purchaseLog users') (name product) Hname)
    as [Hnone Hsome].
  fold (agesOfBuyers users' (name product)) in Hnone, Hsome.
  destruct (decide (agesOfBuyers users' (name product) = [])) as [Hnil|Hbought].
  - destruct (Hnone Hnil) as [_ ->]. rewrite Hname. simpl.
    rewrite normalize_midpoint.
    eexists. split; [done|]. split; [|done]. by case_decide.
  - destruct (Hsome Hbought) as (-> & Hsum).
    assert (Forall (λ a, ∃ q, a = Fin q ∧ lo ≤ q ≤ hi)
              (agesOfBuyers users' (name product))) as Hin.
    { apply Forall_forall.
      intros a (user & purchase & Huser & _ & _ & <-)%elem_of_agesOfBuyers.
      by apply Hages. }
    destruct (total_between _ lo hi Hin) as (s & Hs & Hbounds).
    rewrite Hsum, Hs.
    2:{ eapply Forall_impl; [exact Hin|]. simpl. by intros a (q & -> & _). }
    assert (length (agesOfBuyers users' (name product)) ≠ 0%nat) as Hlen
      by (by destruct (agesOfBuyers users' (name product))).
    cbn [truthy_property to_number].
    rewrite truthy_num_of_nat by done. unfold num_of_nat.
    pose proof (Qc_of_nat_pos _ Hlen) as Hpos.
    rewrite div_Fin by (by apply not_eq_sym, Qclt_not_eq). simpl.
    destruct (normalize_in_unit (s / Qc_of_Z (Z.of_nat
                (length (agesOfBuyers users' (name product))))) lo hi)
      as (r & Hr & Hunit); [by apply mean_between|].
    exists r. by rewrite Hr.
Qed.

(** Under a name that every object inherits the result is NaN, whatever the
    users and the bounds. *)
Lemma purchaser_age_inherited users' avgAge min max product :
  inherited (name product) = true →
  (purchaserAvgAge (ageTotals users').1 (ageTotals users').2 avgAge product
   ≫= λ avg, normalize avg min max) = Ok NaN.
Proof.
  intros Hname. unfold purchaserAvgAge. rewrite ageTotals_log.
  destruct (recordPurchase_inherited (purchaseLog users') (name product) Hname)
    as [-> ->].
  simpl. apply normalize_NaN.
Qed.

Lemma fromEntries_lookup_elem {V} (entries : list (string * V)) key :
  key ∈ entries.*1 →
  ∃ value, fromEntries entries !! key = Some value ∧ (key, value) ∈ entries.
Proof.
  unfold fromEntries. induction entries as [|[k v] entries IH] using rev_ind.
  - by intros ?%elem_of_nil.
  - rewrite fmap_app, elem_of_app, foldl_snoc. simpl. intros Hin.
    destruct (decide (key = k)) as [->|Hne].
    + exists v. rewrite lookup_insert_eq. split; [done|].
      apply elem_of_app. right. left.
    + destruct Hin as [Hin|Hin%list_elem_of_singleton]; [|done].
      destruct (IH Hin) as (value & Hvalue & Helem). exists value.
      rewrite lookup_insert_ne by done. split; [done|].
      apply elem_of_app. by left.
Qed.

(** The entry of [productAvgAgeNorm] for a product of the catalog is the
    value computed for a product of the same name. *)
Lemma productAvgAgeNorm_entry products' users' context product :
  makeContext products' users' = Ok context →
  product ∈ products' →
  ∃ avgAge product' v,
    div (minAge context + maxAge context)%num (Fin 2) = Ok avgAge ∧
    name product' = name product ∧
    productAvgAgeNorm context !! name product = Some v ∧
    (purchaserAvgAge (ageTotals users').1 (ageTotals users').2 avgAge product'
     ≫= λ avg, normalize avg (minAge context) (maxAge context)) = Ok v.
Proof.
  intros H Hin.
  apply makeContext_Ok_inv in H as Hinv.
  destruct Hinv as (_ & _ & -> & -> & _).
  revert H. unfold makeContext. intros (avgAge & HavgAge & H)%bind_Ok_inv.
  destruct (ageTotals users') as [ageSums ageCounts].
  apply bind_Ok_inv in H as (entries & Hentries & [= <-]). simpl.
  apply mapT_Ok_inv in Hentries.
  destruct (fromEntries_lookup_elem entries (name product)) as (v & Hv & Helem).
  { apply list_elem_of_lookup in Hin as [i Hi].
    destruct (Forall2_lookup_l _ _ _ _ _ Hentries Hi) as ([n w] & Hy & Hf).
    apply bind_Ok_inv in Hf as (avg & _ & Hf).
    apply bind_Ok_inv in Hf as (norm & _ & [= <- <-]).
    apply list_elem_of_fmap. exists (name product, norm).
    split; [done | by eapply list_elem_of_lookup_2]. }
  apply list_elem_of_lookup in Helem as [i Hi].
  destruct (Forall2_lookup_r _ _ _ _ _ Hentries Hi) as (product' & _ & Hf).
  apply bind_Ok_inv in Hf as (avg & Havg & Hf).
  apply bind_Ok_inv in Hf as (norm & Hnorm & [= Hname <-]).
  exists avgAge, product', norm. do 3 (split; [done|]).
  by rewrite Havg.
Qed.

(** X9.  The normalised purchaser age that [makeContext] records for a
    product of the catalog.  Under a name that every object inherits, such
    as [toString], it is NaN.  Under any other name, with at least one user
    and ages in whole years, it is a number between 0 and 1; and for a
    product that no user has bought it is 1/2, the middle of the age range,
    unless all users have the same age, where it is 0. *)
Theorem purchaser_age_in_unit products' users' context product :
  makeContext products' users' = Ok context →
  product ∈ products' →
  (inherited (name product) = true →
     productAvgAgeNorm context !! name product = Some NaN) ∧
  (inherited (name product) = false →
   users' ≠ [] → Forall (λ user, whole (age user)) users' →
   (Z.of_nat (length (agesOfBuyers users' (name product))) ≤ 2 ^ 32)%Z →
   ∃ r, productAvgAgeNorm context !! name product = Some (Fin r) ∧
        0 ≤ r ≤ 1 ∧
        (agesOfBuyers users' (name product) = [] →
           r = if decide (minAge context = maxAge context) then 0
               else Q2Qc (1 # 2))).
Proof.
  intros H Hin.
  destruct (productAvgAgeNorm_entry _ _ _ _ H Hin)
    as (avgAge & product' & v & HavgAge & Hname & Hv & Hvalue).
  rewrite <-Hname. split.
  - intros Hinherited. rewrite Hname, Hv. f_equal.
    rewrite purchaser_age_inherited in Hvalue by done. congruence.
  - intros Hown Hne Hwhole _.
    assert (Forall (λ user, is_finite (age user) = true) users') as Hfin.
    { eapply Forall_impl; [exact Hwhole|]. intros user. apply whole_finite. }
    apply makeContext_Ok_inv in H as (_ & _ & HminAge & HmaxAge & _).
    destruct (finite_bounds age users' Hne Hfin)
      as (lo & hi & Hlo & Hhi & Hlohi & Hages).
    rewrite HminAge, HmaxAge, Hlo, Hhi in *.
    change (Fin lo + Fin hi)%num with (Fin (lo + hi)) in HavgAge.
    rewrite div_Fin in HavgAge by done. injection HavgAge as <-.
    destruct (purchaser_age_value users' lo hi product' Hown Hlohi Hages)
      as (r & Hr & Hunit & Hnobody).
    rewrite Hvalue in Hr. injection Hr as ->.
    exists r. rewrite Hname. split; [done|]. split; [done|].
    rewrite <-Hname. intros Hnil. rewrite (Hnobody Hnil).
    destruct (decide (lo = hi)) as [->|Hdiff].
    + by rewrite decide_True.
    + by rewrite decide_False by (by intros [=]).
Qed.


Lemma purchaser_age_in_unit_witness :
  productAvgAgeNorm bazaar !! name gadget = Some NaN ∧
  ∃ r, productAvgAgeNorm bazaar !! name bag = Some (Fin r) ∧
       0 ≤ r ≤ 1 ∧
       (agesOfBuyers [rafael; bruno; ana] (name bag) = [] →
          r = if decide (minAge bazaar = maxAge bazaar) then 0
              else Q2Qc (1 # 2)).
Proof.
  split.
  - refine (proj1 (purchaser_age_in_unit (catalog ++ [gadget])
                     [rafael; bruno; ana] bazaar gadget _ _) _).
    + vm_compute. reflexivity.
    + apply (bool_decide_unpack _). vm_compute. exact I.
    + reflexivity.
  - refine (proj2 (purchaser_age_in_unit (catalog ++ [gadget])
                     [rafael; bruno; ana] bazaar bag _ _) _ _ _ _).
    + vm_compute. reflexivity.
    + apply (bool_decide_unpack _). vm_compute. exact I.
    + reflexivity.
    + done.
    + repeat constructor.
      * exists 27%Z. split; [lia | reflexivity].
      * exists 52%Z. split; [lia | reflexivity].
      * exists 35%Z. split; [lia | reflexivity].
    + vm_compute. discriminate.
Defined.

(** ** A user with a single purchase *)

Lemma div_one (a : number) : div a (num_of_nat 1) = Ok a.
Proof.
  unfold div, num_of_nat. change (Z.of_nat 1) with 1%Z. rewrite Z2Qc_inj_1.
  destruct a as [x| | |]; try done. simpl. do 2 f_equal. apply Qcdiv_1_r.
Qed.

Lemma mean0_single (v : list number) : tf.mean0 [v] = Ok v.
Proof.
  unfold tf.mean0. simpl tf.sum0. cbn [length].
  rewrite (mapT_pure _ id); [by rewrite map_id|]. apply div_one.
Qed.

(** X6.  For a user with a single purchase [encodeUser] returns the vector
    of that purchase as it is, as one row: the mean of one vector is the
    vector.  It returns so whenever the purchase is encoded and the context
    is consistent; when the purchase is not encoded, [encodeUser] throws the
    same error; and when the dimension of the context is not the length of
    the vector, the reshape fails. *)
Theorem encodeUser_single_purchase user context purchase :
  purchases user = [purchase] →
  (∀ v, encodeProduct purchase context = Ok v →
        consistent context → encodeUser user context = Ok (Some [v])) ∧
  (∀ v, encodeProduct purchase context = Ok v →
        ¬ consistent context → encodeUser user context = Throw TfError) ∧
  (∀ e, encodeProduct purchase context = Throw e →
        encodeUser user context = Throw e) ∧
  (∀ row, encodeUser user context = Ok (Some [row]) →
          encodeProduct purchase context = Ok row).
Proof.
  intros Hone.
  assert (∀ v, encodeProduct purchase context = Ok v →
            encodeUser user context = tf.reshape_row v (dimensions context)
                                      ≫= λ reshaped, Ok (Some reshaped)) as Hv.
  { intros v Hv. unfold encodeUser. rewrite Hone. simpl.
    rewrite Hv. simpl. rewrite Nat.eqb_refl. simpl.
    by rewrite mean0_single. }
  split; [|split; [|split]].
  - intros v Hvector Hdim. rewrite (Hv v Hvector).
    apply encodeProduct_Ok_inv in Hvector as [_ Hlen].
    unfold tf.reshape_row. unfold consistent in Hdim.
    rewrite Hlen, <-Hdim, Nat.eqb_refl. done.
  - intros v Hvector Hdim. rewrite (Hv v Hvector).
    apply encodeProduct_Ok_inv in Hvector as [_ Hlen].
    unfold tf.reshape_row. unfold consistent in Hdim.
    destruct (Nat.eqb_spec (length v) (dimensions context)); [|done].
    destruct Hdim. congruence.
  - intros e He. unfold encodeUser. rewrite Hone. simpl. by rewrite He.
  - intros row Hrow.
    destruct (encodeProduct purchase context) as [v|e] eqn:Hvector.
    + rewrite (Hv v eq_refl) in Hrow. unfold tf.reshape_row in Hrow.
      destruct (_ =? _)%nat; [|done]. simpl in Hrow. congruence.
    + unfold encodeUser in Hrow. rewrite Hone in Hrow. simpl in Hrow.
      by rewrite Hvector in Hrow.
Qed.

Lemma encodeUser_single_purchase_witness :
  (∀ v, encodeProduct phones shop = Ok v →
        consistent shop → encodeUser ana shop = Ok (Some [v])) ∧
  (∀ v, encodeProduct phones shop = Ok v →
        ¬ consistent shop → encodeUser ana shop = Throw TfError) ∧
  (∀ e, encodeProduct phones shop = Throw e → encodeUser ana shop = Throw e) ∧
  (∀ row, encodeUser ana shop = Ok (Some [row]) →
          encodeProduct phones shop = Ok row).
Proof. apply (encodeUser_single_purchase ana shop phones). reflexivity. Defined.


(** ** The layout of an encoded product *)

Lemma onehot_lookup (index len k : nat) (w : Qc) :
  (k < len)%nat →
  map (λ j, (num_of_bool (j =? index)%nat * Fin w)%num) (seq 0 len) !! k =
    Some (if decide (k = index) then Fin w else Fin 0).
Proof.
  intros Hk. rewrite list_lookup_fmap, lookup_seq_lt by done. simpl.
  rewrite mul_bool_Fin. destruct (Nat.eqb_spec k index) as [->|Hne].
  - by rewrite decide_True.
  - by rewrite decide_False.
Qed.



(** ** The order of normalised values *)

(** A value above the range is sent above 1: nothing is clamped. *)
Example normalize_beyond_max :
  normalize (years 5) (years 1) (years 3) = Ok (years 2).
Proof. unfold years. rewrite normalize_Fin_ne by done. do 2 f_equal. by apply Qc_is_canon. Qed.




(** ** The categories and colors in the vector of a user *)

(** The entries of an encoded product from position 2 on: none is negative,
    and those other than 0 are at the index of the category and, after the
    categories, at the index of the color. *)
Lemma encodeProduct_hot product context v :
  encodeProduct product context = Ok v →
  ∃ i j,
    categoriesIndex context !! category product = Some i ∧
    colorsIndex context !! color product = Some j ∧
    ∀ k, (k < numCategories context + numColors context)%nat →
      ∃ q, v !! (2 + k)%nat = Some (Fin q) ∧ 0 ≤ q ∧
           (q ≠ 0 ↔ (k < numCategories context)%nat ∧ k = i ∨
                    (numCategories context ≤ k)%nat ∧
                    (k - numCategories context)%nat = j).
Proof.
  intros Hv.
  destruct (encodeProduct_Ok_depth _ _ _ Hv) as [Hcat Hcol].
  destruct (encodeProduct_Ok_inv _ _ _ Hv) as [[[i Hi] [j Hj]] _].
  exists i, j. do 2 (split; [done|]). intros k Hk.
  set (cat := map (λ k, (num_of_bool (k =? i)%nat * WEIGHTS.category)%num)
                (seq 0 (numCategories context))).
  set (col := map (λ k, (num_of_bool (k =? j)%nat * WEIGHTS.color)%num)
                (seq 0 (numColors context))).
  assert (∃ price age, v = [price] ++ [age] ++ cat ++ col) as (p & a & ->).
  { revert Hv. unfold encodeProduct.
    destruct (normalize_total (price product) (minPrice context) (maxPrice context))
      as [norm ->].
    rewrite Hi, Hj, !oneHotWeighted_Some by done.
    unfold tf.concat, tf.tensor1d, tf.mul. simpl. rewrite app_nil_r.
    intros [= <-]. eauto. }
  assert (length cat = numCategories context) as Hcatlen
    by (unfold cat; by rewrite length_map, length_seq).
  change (([p] ++ [a] ++ cat ++ col) !! (2 + k)%nat) with ((cat ++ col) !! k).
  destruct (decide (k < numCategories context)%nat) as [Hincat|Hincol].
  - rewrite lookup_app_l by lia. unfold cat, WEIGHTS.category.
    rewrite onehot_lookup by done.
    destruct (decide (k = i)) as [->|Hne]; eexists; (split; [done|]).
    + split; [done|]. split; [auto | done].
    + split; [done|]. split; [done | intros [[_ ?]|[? _]]; [done | lia]].
  - rewrite lookup_app_r by lia. rewrite Hcatlen. unfold col, WEIGHTS.color.
    rewrite onehot_lookup by lia.
    destruct (decide (k - numCategories context = j)%nat) as [Heq|Hne];
      eexists; (split; [done|]).
    + split; [done|]. split; [intros _; right; lia | done].
    + split; [done|]. split; [done | intros [[? _]|[_ ?]]; [lia | done]].
Qed.

(** A sum of rows at a position where no entry is negative. *)
Lemma sum0_nonneg (rows : list (list number)) (k : nat) :
  rows ≠ [] →
  Forall (λ row, ∃ q, row !! k = Some (Fin q) ∧ 0 ≤ q) rows →
  ∃ s, tf.sum0 rows !! k = Some (Fin s) ∧ 0 ≤ s ∧
       (s ≠ 0 ↔ Exists (λ row, row !! k ≠ Some (Fin 0)) rows).
Proof.
  induction rows as [|row rows IH]; [done|]. intros _ Hall.
  apply Forall_cons in Hall as [(q & Hq & Hpos) Hrows].
  destruct rows as [|row' rows].
  - exists q. simpl. split; [done|]. split; [done|].
    rewrite Exists_cons, Exists_nil, Hq. split.
    + intros Hne. left. by intros [=].
    + intros [Hne|[]] ->. by apply Hne.
  - destruct (IH ltac:(done) Hrows) as (s & Hs & Hspos & Hiff).
    exists (q + s).
    change (tf.sum0 (row :: row' :: rows))
      with (zip_with add row (tf.sum0 (row' :: rows))).
    rewrite lookup_zip_with, Hq, Hs. split; [done|].
    split.
    { rewrite <-(Qcplus_0_l 0). by apply Qcplus_le_compat. }
    rewrite Exists_cons, <-Hiff, Hq. split.
    + intros Hsum. destruct (decide (q = 0)) as [->|Hqne].
      * right. by rewrite Qcplus_0_l in Hsum.
      * left. intros [= ?]. done.
    + intros Hsome Hsum.
      assert (q = 0 ∧ s = 0) as [-> ->].
      { assert (q ≤ 0) as Hq0.
        { rewrite <-Hsum. rewrite <-(Qcplus_0_r q) at 1.
          by apply Qcplus_le_compat. }
        assert (q = 0) as -> by (by apply Qcle_antisym).
        split; [done|]. by rewrite Qcplus_0_l in Hsum. }
      destruct Hsome as [Hne|Hne]; by apply Hne.
Qed.

(** X16.  In a context built by [makeContext], the vector of a user marks
    the categories and the colors of what the user has bought: from position
    2 on, an entry of the row that [encodeUser] returns is other than 0
    exactly at the positions 2 + (index of the category) and
    2 + numCategories + (index of the color) of the user's purchases.  The
    statement is about which entries are 0: the entries of the purchases are
    0 or a weight, so a mean in single precision is 0 at the same positions
    as the exact one. *)
Theorem encodeUser_support products' users' context user row :
  makeContext products' users' = Ok context →
  encodeUser user context = Ok (Some [row]) →
  ∀ k x, (2 ≤ k)%nat → row !! k = Some x →
    (x ≠ Fin 0 ↔
     ∃ purchase i j,
       purchase ∈ purchases user ∧
       categoriesIndex context !! category purchase = Some i ∧
       colorsIndex context !! color purchase = Some j ∧
       (k = (2 + i)%nat ∨ k = (2 + numCategories context + j)%nat)).
Proof.
  intros H Hrow k x Hk Hx.
  destruct (encodeUser_vectors _ _ _ Hrow) as (vectors & Hvectors & Hne & Hlens & Hmean).
  apply encodeUser_Some_inv in Hrow as (row' & [= <-] & Hrowlen & _).
  apply makeContext_Ok_inv in H
    as (_ & _ & _ & _ & _ & _ & Hcat & Hcol & Hncat & Hncol & Hdim).
  unfold consistent in Hdim.
  assert (k < dimensions context)%nat as Hklt
    by (rewrite <-Hrowlen; by eapply lookup_lt_Some).
  destruct k as [|[|k]]; [lia | lia |].
  assert (k < numCategories context + numColors context)%nat as Hkrange by lia.
  (* the indexes of the maps are below their sizes *)
  assert (∀ purchase i j,
            categoriesIndex context !! category purchase = Some i →
            colorsIndex context !! color purchase = Some j →
            (i < numCategories context)%nat ∧ (j < numColors context)%nat)
    as Hbelow.
  { intros purchase i j Hi Hj. rewrite Hcat in Hi. rewrite Hcol in Hj.
    rewrite Hncat, Hncol.
    apply indexed_lookup in Hi, Hj; try apply NoDup_Set_spread.
    split; by eapply lookup_lt_Some. }
  (* every vector is that of a purchase *)
  assert (Forall (λ v, ∃ q, v !! S (S k) = Some (Fin q) ∧ 0 ≤ q) vectors) as Hpos.
  { clear -Hvectors Hkrange.
    induction Hvectors as [|purchase v ? ? Hv _ IH]; constructor; [|done].
    destruct (encodeProduct_hot _ _ _ Hv) as (i & j & _ & _ & Hhot).
    destruct (Hhot k Hkrange) as (q & Hq & Hq0 & _). eauto. }
  destruct (sum0_nonneg vectors (S (S k)) Hne Hpos) as (s & Hs & Hs0 & Hiff).
  unfold tf.mean0 in Hmean. apply mapT_Ok_inv in Hmean.
  destruct (Forall2_lookup_r _ _ _ _ _ Hmean Hx) as (s' & Hs' & Hdiv).
  rewrite Hs in Hs'. injection Hs' as <-.
  assert (length vectors ≠ 0%nat) as Hlen by (by destruct vectors).
  pose proof (Qc_of_nat_pos _ Hlen) as Hn.
  unfold num_of_nat in Hdiv.
  rewrite div_Fin in Hdiv by (by apply not_eq_sym, Qclt_not_eq).
  injection Hdiv as <-.
  assert (Fin (s / Qc_of_Z (Z.of_nat (length vectors))) ≠ Fin 0 ↔ s ≠ 0) as ->.
  { split.
    - intros Hq ->. apply Hq. f_equal. unfold Qcdiv. apply Qcmult_0_l.
    - intros Hsne Hq'. apply Hsne.
      pose proof (f_equal (λ a, match a with Fin q => q | _ => 0 end) Hq') as Hq.
      cbv beta iota in Hq.
      apply (f_equal (λ z, z * Qc_of_Z (Z.of_nat (length vectors)))) in Hq.
      unfold Qcdiv in Hq.
      rewrite <-Qcmult_assoc, (Qcmult_comm (/ _)), Qcmult_inv_r, Qcmult_1_r,
        Qcmult_0_l in Hq; [done|].
      by apply not_eq_sym, Qclt_not_eq. }
  rewrite Hiff. clear -Hvectors Hkrange Hbelow. split.
  - intros Hex.
    induction Hvectors as [|purchase v ps vs Hv _ IH];
      [by apply Exists_nil in Hex|].
    apply Exists_cons in Hex as [Hhere|Hlater].
    + destruct (encodeProduct_hot _ _ _ Hv) as (i & j & Hi & Hj & Hhot).
      destruct (Hhot k Hkrange) as (q & Hq & _ & Hqiff).
      exists purchase, i, j. split; [left|]. do 2 (split; [done|]).
      assert (q ≠ 0) as Hqne by (intros ->; by apply Hhere).
      apply Hqiff in Hqne as [[_ ->]|[Hge <-]]; [by left | right; lia].
    + destruct (IH Hlater) as (purchase' & i & j & Hin & Hrest).
      exists purchase', i, j. split; [by right | done].
  - intros (purchase & i & j & Hin & Hi & Hj & Hposition).
    destruct (Hbelow _ _ _ Hi Hj) as [Hilt Hjlt].
    induction Hvectors as [|purchase' v ps vs Hv _ IH];
      [by apply elem_of_nil in Hin|].
    apply elem_of_cons in Hin as [->|Hin]; [|by apply Exists_cons_tl, IH].
    apply Exists_cons_hd.
    destruct (encodeProduct_hot _ _ _ Hv) as (i' & j' & Hi' & Hj' & Hhot).
    assert (i' = i ∧ j' = j) as [-> ->] by (split; congruence).
    destruct (Hhot k Hkrange) as (q & Hq & _ & Hqiff).
    change (v !! S (S k) = Some (Fin q)) in Hq.
    rewrite Hq. intros Hzero. apply (proj2 Hqiff); [|congruence].
    destruct Hposition as [?|?]; [left | right]; lia.
Qed.

Lemma encodeUser_support_witness :
  ∃ x, userVector shop rafael !! 2%nat = Some x ∧
    (x ≠ Fin 0 ↔
     ∃ purchase i j,
       purchase ∈ purchases rafael ∧
       categoriesIndex shop !! category purchase = Some i ∧
       colorsIndex shop !! color purchase = Some j ∧
       (2 = (2 + i) ∨ 2 = (2 + numCategories shop + j))%nat).
Proof.
  destruct (userVector shop rafael !! 2%nat) as [x|] eqn:Hx.
  - exists x. split; [reflexivity|].
    apply (encodeUser_support catalog [rafael; ana] shop rafael
             (userVector shop rafael)).
    + vm_compute. reflexivity.
    + vm_compute. reflexivity.
    + lia.
    + exact Hx.
  - vm_compute in Hx. discriminate.
Defined.
